(** * CardSimilarity: corpus construction, text normalisation and ranking

    A shallow embedding of the notebook [CardSimilarity.ipynb]: the card
    dictionary read from MTGJSON, [getRawText], [preprocessText],
    [isExcluded], [constructCorpus], the fitting of the vectorizer, and the
    ranking functions [getSimilarTexts] and [getSimilarCards].

    Conventions.
    - A Python [str] is a [string]; characters are 8-bit, [str.lower] acts on
      the ASCII letters and leaves every other character alone.
    - A Python exception is a value of [PyError]; a function that may raise
      returns a [result].
    - The dictionary [cards_dict['data']] is an association list in the
      dictionary's iteration order, subscripted with [lookup].
    - The notebook's global variables are the fields of a [Session], which
      [run_notebook] builds as the top-level cells do.
    - NLTK, scikit-learn and NumPy are not part of the notebook; they enter
      through the record [Library], and what NumPy documents of [argsort]
      is the hypothesis [ArgsortContract]. *)

From Stdlib Require Import List Bool Arith ZArith Lia Ascii String.
From Stdlib Require Import Permutation Sorted.
Import ListNotations.

Open Scope string_scope.
Open Scope list_scope.

(** ** Exceptions *)

Inductive PyError : Type :=
| KeyError
| IndexError
| ValueError.

Inductive result (A : Type) : Type :=
| Ok (a : A)
| Raise (e : PyError).

Arguments Ok {A} a.
Arguments Raise {A} e.

Definition bind {A B : Type} (m : result A) (k : A -> result B) : result B :=
  match m with
  | Ok a => k a
  | Raise e => Raise e
  end.

Notation "x <- m ;; k" := (bind m (fun x => k))
  (at level 61, m at next level, right associativity).

(** ** Python string methods used by the notebook *)

Module Py.

(** [sep.join(parts)] *)
Fixpoint join (sep : string) (parts : list string) : string :=
  match parts with
  | [] => ""
  | [p] => p
  | p :: rest => p ++ sep ++ join sep rest
  end.

(** [old in s] for a non-empty [old]: some suffix of [s] starts with [old]. *)
Fixpoint occurs (old s : string) : bool :=
  match s with
  | EmptyString => prefix old EmptyString
  | String _ s' => prefix old s || occurs old s'
  end.

(** The scan of [str.replace] for a non-empty [old]: left to right, every
    occurrence found is replaced and the scan resumes after it; [skip] counts
    the characters of the current occurrence that are still to be passed. *)
Fixpoint replace_from (old new : string) (skip : nat) (s : string) : string :=
  match s with
  | EmptyString => EmptyString
  | String c s' =>
      match skip with
      | S k => replace_from old new k s'
      | O =>
          if prefix old s
          then new ++ replace_from old new (String.length old - 1) s'
          else String c (replace_from old new 0 s')
      end
  end.

(** With an empty [old], Python puts [new] before every character and at the
    end. *)
Fixpoint replace_empty (new s : string) : string :=
  match s with
  | EmptyString => new
  | String c s' => new ++ String c (replace_empty new s')
  end.

(** [s.replace(old, new)] *)
Definition replace (s old new : string) : string :=
  match old with
  | EmptyString => replace_empty new s
  | String _ _ => replace_from old new 0 s
  end.

(** The scan of [str.split] for a non-empty separator; [cur] is the piece
    being collected. *)
Fixpoint split_from (sep : string) (skip : nat) (cur s : string) : list string :=
  match s with
  | EmptyString => [cur]
  | String c s' =>
      match skip with
      | S k => split_from sep k cur s'
      | O =>
          if prefix sep s
          then cur :: split_from sep (String.length sep - 1) EmptyString s'
          else split_from sep 0 (cur ++ String c EmptyString) s'
      end
  end.

(** [s.split(sep)] for a non-empty [sep] (Python raises [ValueError] on an
    empty one; the notebook's only separator is a literal of four
    characters). *)
Definition split (s sep : string) : list string :=
  split_from sep 0 EmptyString s.

Definition is_upper (c : ascii) : bool :=
  let n := nat_of_ascii c in ((65 <=? n) && (n <=? 90))%nat.

Definition lower_char (c : ascii) : ascii :=
  if is_upper c then ascii_of_nat (nat_of_ascii c + 32) else c.

(** [s.lower()] *)
Fixpoint lower (s : string) : string :=
  match s with
  | EmptyString => EmptyString
  | String c s' => String (lower_char c) (lower s')
  end.

(** Membership of a character in a string *)
Fixpoint mem_char (c : ascii) (chars : string) : bool :=
  match chars with
  | EmptyString => false
  | String d chars' => Ascii.eqb c d || mem_char c chars'
  end.

(** [str.maketrans('', '', deleted)]: the table that maps every character
    of [deleted] to [None] and holds no other character. *)
Definition maketrans_delete (deleted : string) (c : ascii) : option (option ascii) :=
  if mem_char c deleted then Some None else None.

(** [s.translate(table)]: a character the table maps to [None] is deleted,
    one it maps to a character is replaced, one it does not hold stays. *)
Fixpoint translate (table : ascii -> option (option ascii)) (s : string)
  : string :=
  match s with
  | EmptyString => EmptyString
  | String c s' =>
      match table c with
      | Some None => translate table s'
      | Some (Some c') => String c' (translate table s')
      | None => String c (translate table s')
      end
  end.

End Py.

(** ** Text normalisation *)

(** The 27 characters of the source literal: its two backslashes are the
    escape of the double quote (character 34) and, before the closing
    bracket, no escape at all, so a backslash is one of the characters. *)
Definition punct : string :=
  String "!" (String (ascii_of_nat 34) "#$%&'()*,.:;<=>?@[\]^_`|~").

Definition translator : ascii -> option (option ascii) :=
  Py.maketrans_delete punct.

Definition name_separator : string := " // ".

(** The loop [for name in names: namelessText = namelessText.replace(name, '')] *)
Definition remove_names (names : list string) (input_text : string) : string :=
  fold_left (fun namelessText name => Py.replace namelessText name "")
            names input_text.

Definition preprocessText (input_text cardName : string) : string :=
  let names := Py.split cardName name_separator in
  let namelessText := remove_names names input_text in
  let lowerText := Py.lower namelessText in
  let noPunctText := Py.translate translator lowerText in
  noPunctText.

(** ** The card dictionary *)

(** One face object of a card. A field is [None] when the JSON object has no
    such key. ([legalities] is read only by a line the notebook has
    commented out.) *)
Record Face : Type := {
  text : option string;
  types : option (list string);
  printings : option (list string)
}.

(** [cards_dict['data']]: card name to the list of its faces, in the
    dictionary's iteration order. A dictionary holds a key once; [lookup]
    reads the first entry of a key, and no statement below needs the keys of
    the list to differ. *)
Definition CardsDict : Type := list (string * list Face).

Definition keys (d : CardsDict) : list string := map fst d.

(** [d[k]] *)
Fixpoint lookup (d : CardsDict) (k : string) : result (list Face) :=
  match d with
  | [] => Raise KeyError
  | (k', v) :: d' => if String.eqb k k' then Ok v else lookup d' k
  end.

(** [l[i]] for a list and an index that is not negative *)
Definition subscript {A : Type} (l : list A) (i : nat) : result A :=
  match nth_error l i with
  | Some a => Ok a
  | None => Raise IndexError
  end.

(** [face['key']] *)
Definition field {A : Type} (o : option A) : result A :=
  match o with
  | Some a => Ok a
  | None => Raise KeyError
  end.

(** [x in l] for a list of strings *)
Definition contains (x : string) (l : list string) : bool :=
  existsb (String.eqb x) l.

(** [set(a).isdisjoint(b)] *)
Definition isdisjoint (a b : list string) : bool :=
  forallb (fun x => negb (contains x b)) a.

(** [[face['text'] for face in cardEntry if 'text' in face.keys()]] *)
Fixpoint face_texts (cardEntry : list Face) : list string :=
  match cardEntry with
  | [] => []
  | face :: rest =>
      match text face with
      | Some t => t :: face_texts rest
      | None => face_texts rest
      end
  end.

Definition getRawText (cards_dict : CardsDict) (cardName_str : string)
  : result string :=
  cardEntry <- lookup cards_dict cardName_str ;;
  Ok (Py.join " " (face_texts cardEntry)).

(** ** Exclusion filter *)

Definition excludedSets : list string :=
  ["PVAN"; "PCEL"; "CMB1"; "UNH"; "UST"; "UND"; "UGL"].

Definition isExcluded (cards_dict : CardsDict) (cardName_str : string)
  : result bool :=
  faces <- lookup cards_dict cardName_str ;;
  cardEntry <- subscript faces 0 ;;
  card_types <- field (types cardEntry) ;;
  if contains "Plane" card_types || contains "Scheme" card_types then Ok true
  else
    card_printings <- field (printings cardEntry) ;;
    if negb (isdisjoint card_printings excludedSets) then Ok true
    else Ok false.

(** ** Corpus construction *)

(** The [for cardName in card_names] loop, with the two lists it appends to. *)
Fixpoint corpus_loop (cards_dict : CardsDict) (card_names : list string)
    (cardNames cardTexts : list string) : result (list string * list string) :=
  match card_names with
  | [] => Ok (cardNames, cardTexts)
  | cardName :: rest =>
      excluded <- isExcluded cards_dict cardName ;;
      if excluded : bool then corpus_loop cards_dict rest cardNames cardTexts
      else
        raw <- getRawText cards_dict cardName ;;
        let cleanText := preprocessText raw cardName in
        corpus_loop cards_dict rest
                    (cardNames ++ [cardName]) (cardTexts ++ [cleanText])
  end.

Definition constructCorpus (cards_dict : CardsDict)
  : result (list string * list string) :=
  corpus_loop cards_dict (keys cards_dict) [] [].

(** A dictionary on which neither [isExcluded] nor [getRawText] can raise:
    every card has a first face with a [types] field and, unless that names
    a Plane or a Scheme, a [printings] field. *)
Definition entry_readable (faces : list Face) : bool :=
  match faces with
  | [] => false
  | cardEntry :: _ =>
      match types cardEntry with
      | None => false
      | Some card_types =>
          contains "Plane" card_types || contains "Scheme" card_types
          || match printings cardEntry with Some _ => true | None => false end
      end
  end.

Definition readable (cards_dict : CardsDict) : bool :=
  forallb (fun kv => entry_readable (snd kv)) cards_dict.

(** ** The libraries *)

(** What the notebook takes from NLTK, scikit-learn and NumPy: the word
    tokenizer and the Porter stemmer; a vectorizer that is built with a
    tokenizer and a list of stop words, is fitted on the corpus texts (which
    fails with [ValueError] when no word is left for the vocabulary) and
    then maps a text to a row vector; the cosine similarity of two rows; the
    order [argsort] compares scores with, and [argsort] itself. Scores are
    64-bit floats in the notebook; here they are any type with a
    comparison. Nothing is assumed of the record's fields. *)
Record Library : Type := {
  word_tokenize : string -> list string;
  stem : string -> string;
  score : Type;
  score_lt : score -> score -> bool;
  vectorizer : Type;
  vec : Type;
  fit : (string -> list string) -> list string -> list string ->
        result vectorizer;
  transform : vectorizer -> string -> vec;
  cosine_similarity : vec -> vec -> score;
  argsort : list score -> list nat
}.

Definition stem_tokens (L : Library) (tokens : list string) : list string :=
  map (stem L) tokens.

Definition tokenize (L : Library) (text : string) : list string :=
  let tokens := word_tokenize L text in
  let stems := stem_tokens L tokens in
  stems.

(** The em dash, U+2014, as the three bytes of its UTF-8 encoding. *)
Definition em_dash : string :=
  String (ascii_of_nat 226)
         (String (ascii_of_nat 128) (String (ascii_of_nat 148) EmptyString)).

(** The last entry of the source list is an em dash. *)
Definition my_stop_words : list string :=
  ["a"; "an"; "and"; "and/or"; "are"; "as"; "at"; "be"; "by"; "could"; "dont";
   "for"; "if"; "in"; "is"; "it"; "its"; "may"; "of"; "on"; "or"; "that";
   "thats"; "the"; "their"; "them"; "then"; "they"; "thi"; "those"; "to";
   "wa"; "where"; "with"; "you"; "your"; em_dash].

(** [idx] lists positions of [v] in ascending order of their values: no
    later position holds a smaller value than an earlier one. *)
Definition ascending {A : Type} (less : A -> A -> bool) (v : list A)
    (idx : list nat) : Prop :=
  StronglySorted
    (fun i j => forall a b,
         nth_error v i = Some a -> nth_error v j = Some b -> less b a = false)
    idx.

Definition descending {A : Type} (less : A -> A -> bool) (v : list A)
    (idx : list nat) : Prop :=
  StronglySorted
    (fun i j => forall a b,
         nth_error v i = Some a -> nth_error v j = Some b -> less a b = false)
    idx.

(** What NumPy documents of [argsort], whatever the sorting algorithm: the
    indices that would sort the array. *)
Record ArgsortContract (L : Library) : Prop := {
  argsort_permutation :
    forall v, Permutation (argsort L v) (seq 0 (List.length v));
  argsort_ascending :
    forall v, ascending (score_lt L) v (argsort L v)
}.

(** [argsort] of an array of two values exchanges the two positions only
    when the second value is below the first. *)
Definition sorts_a_pair (L : Library) : Prop :=
  forall a b,
    argsort L [a; b] = if score_lt L b a then [1; 0] else [0; 1].

(** A stable sort of the positions, by insertion: each element in turn
    moves left past the elements that are greater than it, so equal values
    keep their order. [sorted_rev] is the sorted part from its right end.
    It is one sort that meets [ArgsortContract], used to run the
    definitions on sample data; NumPy's default sort is not stable, and
    what is proved of the notebook's ranking is proved from
    [ArgsortContract]. *)
Fixpoint insert_from_right {A : Type} (less : A -> A -> bool)
    (vi : nat) (vp : A) (sorted_rev : list (nat * A)) : list (nat * A) :=
  match sorted_rev with
  | [] => [(vi, vp)]
  | (k, vk) :: rest =>
      if less vp vk then (k, vk) :: insert_from_right less vi vp rest
      else (vi, vp) :: sorted_rev
  end.

Definition insertion_pass {A : Type} (less : A -> A -> bool)
    (tosort : list (nat * A)) : list (nat * A) :=
  fold_left (fun sorted_rev p => insert_from_right less (fst p) (snd p) sorted_rev)
            tosort [].

Definition stable_argsort {A : Type} (less : A -> A -> bool) (v : list A)
  : list nat :=
  rev (map fst (insertion_pass less (combine (seq 0 (List.length v)) v))).

(** ** The notebook's global state *)

Record Session (L : Library) : Type := {
  cards_dict : CardsDict;
  cardNames : list string;
  cardTexts : list string;
  tfidf : vectorizer L;
  tfs : list (vec L)
}.

Arguments cards_dict {L} _.
Arguments cardNames {L} _.
Arguments cardTexts {L} _.
Arguments tfidf {L} _.
Arguments tfs {L} _.

(** The top-level cells in order: the corpus, then the vectorizer, built
    with [tokenize] and [my_stop_words] and fitted on the corpus texts, and
    the matrix [tfs] of the corpus rows ([fit_transform] is [fit] followed
    by [transform] of the same texts). *)
Definition run_notebook (L : Library) (d : CardsDict) : result (Session L) :=
  corpus <- constructCorpus d ;;
  model <- fit L (tokenize L) my_stop_words (snd corpus) ;;
  Ok {| cards_dict := d;
        cardNames := fst corpus;
        cardTexts := snd corpus;
        tfidf := model;
        tfs := map (transform L model) (snd corpus) |}.

(** ** Ranking *)

(** [a[:stop:-1]], with the index arithmetic of CPython's slice objects for
    a negative step: the start defaults to the last index, a negative [stop]
    counts from the end and is clamped to [-1], a [stop] past the end is
    clamped to the last index. *)
Definition slice_down_to {A : Type} (a : list A) (stop : Z) : list A :=
  let len := Z.of_nat (List.length a) in
  let start := (len - 1)%Z in
  let stop :=
    if (stop <? 0)%Z
    then (if (stop + len <? 0)%Z then (-1)%Z else (stop + len)%Z)
    else (if (len <=? stop)%Z then (len - 1)%Z else stop) in
  if (stop <? start)%Z then firstn (Z.to_nat (start - stop)) (rev a) else [].

(** [[f(x) for x in xs]] where [f] may raise *)
Fixpoint traverse {A B : Type} (f : A -> result B) (xs : list A)
  : result (list B) :=
  match xs with
  | [] => Ok []
  | x :: rest =>
      y <- f x ;;
      ys <- traverse f rest ;;
      Ok (y :: ys)
  end.

Definition cosine_similarities (L : Library) (g : Session L)
    (cardText : string) : list (score L) :=
  let response := transform L (tfidf g) cardText in
  map (cosine_similarity L response) (tfs g).

Definition related_docs_indices (L : Library) (g : Session L)
    (cardText : string) (n : Z) : list nat :=
  slice_down_to (argsort L (cosine_similarities L g cardText)) (- n - 1)%Z.

Definition getSimilarTexts (L : Library) (g : Session L)
    (cardText : string) (n : Z) : result (list string) :=
  let closest :=
    traverse (fun idx => subscript (cardNames g) idx)
             (related_docs_indices L g cardText n) in
  closest.

Definition getSimilarCards (L : Library) (g : Session L)
    (cardName : string) (n : Z) : result (list string) :=
  raw <- getRawText (cards_dict g) cardName ;;
  let cardText := preprocessText raw cardName in
  getSimilarTexts L g cardText n.

(** ** Predicates the statements below use *)

(** No sub-name of [cardName] is left to remove from [t]: every piece of
    the name is empty (removing it changes nothing) or does not occur. *)
Definition name_absent (cardName t : string) : bool :=
  forallb (fun name =>
             match name with
             | EmptyString => true
             | String _ _ => negb (Py.occurs name t)
             end)
          (Py.split cardName name_separator).

(** One row of the corpus: the card is not excluded and its document is
    its normalised raw text. *)
Definition corpus_row (d : CardsDict) (cardName cleanText : string) : Prop :=
  isExcluded d cardName = Ok false /\
  exists raw, getRawText d cardName = Ok raw /\
              cleanText = preprocessText raw cardName.

(** The corpus positions other than [i] whose score is not below that of
    position [i]. *)
Definition rivals {A : Type} (less : A -> A -> bool) (v : list A) (i : nat)
  : list nat :=
  filter (fun j =>
            negb (Nat.eqb j i) &&
            match nth_error v j, nth_error v i with
            | Some a, Some b => negb (less a b)
            | _, _ => false
            end)
         (seq 0 (List.length v)).

(** Entries with equal scores stand in reverse corpus order. *)
Definition ties_reversed {A : Type} (less : A -> A -> bool) (v : list A)
    (idx : list nat) : Prop :=
  StronglySorted
    (fun i j => forall a b,
         nth_error v i = Some a -> nth_error v j = Some b ->
         less b a = false -> j < i)
    idx.

(** [p] stands before [q] in the sorted part of [insert_from_right], read
    from its right end: the value of [p] is not below that of [q], and of
    two equal values the one that came later in the array stands first. *)
Definition above {A : Type} (less : A -> A -> bool) (p q : nat * A) : Prop :=
  less (snd p) (snd q) = false /\
  (less (snd q) (snd p) = false -> fst q < fst p).

(** The comparison is a strict weak order, as [<] on floats that are not
    NaN is. *)
Record StrictWeakOrder {A : Type} (less : A -> A -> bool) : Prop := {
  less_asym : forall a b, less a b = true -> less b a = false;
  less_cotrans :
    forall a b c, less a b = false -> less b c = false -> less a c = false
}.

(** ** The debugging accessor *)

(** [l.index(x)]: the first position of [x], [ValueError] when [l] does
    not hold it. *)
Fixpoint index_of (l : list string) (x : string) : result nat :=
  match l with
  | [] => Raise ValueError
  | y :: l' =>
      if String.eqb y x then Ok 0
      else
        i <- index_of l' x ;;
        Ok (S i)
  end.

Definition getCleanText {L : Library} (g : Session L) (cardName : string)
  : result string :=
  i <- index_of (cardNames g) cardName ;;
  subscript (cardTexts g) i.

(** ** Further predicates *)

(** The loop of [constructCorpus] keeps a card: [isExcluded] returned
    [False] for it. *)
Definition kept (d : CardsDict) (cardName : string) : bool :=
  match isExcluded d cardName with
  | Ok false => true
  | _ => false
  end.

(** A text of ASCII characters only, the texts on which [Py.lower] is
    [str.lower]. *)
Fixpoint is_ascii (t : string) : bool :=
  match t with
  | EmptyString => true
  | String c t' => (nat_of_ascii c <? 128)%nat && is_ascii t'
  end.

(** A character that [preprocessText] lets through as it is: no character
    of [punct] and no upper-case letter. *)
Definition clean_char (c : ascii) : bool :=
  negb (Py.mem_char c punct) && negb (Py.is_upper c).

Fixpoint clean (t : string) : bool :=
  match t with
  | EmptyString => true
  | String c t' => clean_char c && clean t'
  end.

(** ** Sample data *)

Definition face (t : string) (ty pr : list string) : Face :=
  {| text := Some t; types := Some ty; printings := Some pr |}.

Definition textless (ty pr : list string) : Face :=
  {| text := None; types := Some ty; printings := Some pr |}.

Definition growth_text : string :=
  "Target creature gets +3/+3 until end of turn.".

(** Two cards with the same rules text, in the order of the MTGJSON file
    (by name). *)
Definition twins : CardsDict :=
  [ ("Brute Force", [face growth_text ["Instant"] ["PLC"]]);
    ("Giant Growth", [face growth_text ["Instant"] ["LEA"; "M10"]]) ].

(** A dictionary with a card of an excluded set, a card of two faces whose
    second face is given an excluded type and an excluded printing, and a
    card without text. *)
Definition sample : CardsDict :=
  [ ("Brute Force", [face growth_text ["Instant"] ["PLC"]]);
    ("Chaos Confetti",
     [face "{4}, {T}: Tear Chaos Confetti into pieces." ["Artifact"] ["UGL"]]);
    ("Fire // Ice",
     [face "Fire deals 2 damage divided as you choose among one or two targets."
           ["Instant"] ["APC"];
      face "Tap target permanent. Draw a card." ["Scheme"] ["UST"]]);
    ("Giant Growth", [face growth_text ["Instant"] ["LEA"; "M10"]]);
    ("Grizzly Bears", [textless ["Creature"] ["LEA"]]);
    ("Llanowar Elves", [face "{T}: Add {G}." ["Creature"] ["LEA"; "M10"]]) ].

(** An instance of [Library] to run the definitions with: words are split
    at spaces and left unstemmed, a row is the list of the words of a text
    that are no stop words, the similarity of two rows is the number of
    words of the first that the second has, and the sort is
    [stable_argsort]. *)
Definition shared_words (q d : list string) : Z :=
  Z.of_nat (List.length (filter (fun w => contains w d) q)).

Definition WordOverlap : Library :=
  {| word_tokenize := fun s => Py.split s " ";
     stem := fun w => w;
     score := Z;
     score_lt := Z.ltb;
     vectorizer := (string -> list string) * list string;
     vec := list string;
     fit := fun tokenizer stop_words texts =>
              match texts with
              | [] => Raise ValueError
              | _ :: _ => Ok (tokenizer, stop_words)
              end;
     transform := fun model s =>
                    filter (fun w => negb (contains w (snd model)))
                           (fst model s);
     cosine_similarity := shared_words;
     argsort := stable_argsort Z.ltb |}.

Definition WordOverlap_model : vectorizer WordOverlap :=
  (tokenize WordOverlap, my_stop_words).

Definition growth_clean : string :=
  "target creature gets +3/+3 until end of turn".

Definition twins_session : Session WordOverlap :=
  Build_Session WordOverlap twins
    ["Brute Force"; "Giant Growth"]
    [growth_clean; growth_clean]
    WordOverlap_model
    (map (transform WordOverlap WordOverlap_model)
         [growth_clean; growth_clean]).

Definition sample_names : list string :=
  ["Brute Force"; "Fire // Ice"; "Giant Growth"; "Grizzly Bears";
   "Llanowar Elves"].

Definition sample_texts : list string :=
  [growth_clean;
   " deals 2 damage divided as you choose among one or two targets tap target permanent draw a card";
   growth_clean;
   "";
   "{t} add {g}"].

Definition sample_session : Session WordOverlap :=
  Build_Session WordOverlap sample
    sample_names
    sample_texts
    WordOverlap_model
    (map (transform WordOverlap WordOverlap_model) sample_texts).

(** * Properties *)

(** ** Strings *)

Section StringFacts.

Local Open Scope string_scope.

Lemma replace_from_absent :
  forall old new s,
    Py.occurs old s = false -> Py.replace_from old new 0 s = s.
Proof.
  intros old new s; induction s as [|c s IH]; intros Hocc.
  - reflexivity.
  - cbn [Py.occurs] in Hocc.
    apply orb_false_iff in Hocc as [Hpre Hrest].
    cbn [Py.replace_from]. rewrite Hpre, (IH Hrest). reflexivity.
Qed.

Lemma replace_empty_delete :
  forall s, Py.replace_empty "" s = s.
Proof.
  induction s as [|c s IH]; cbn; [reflexivity | now rewrite IH].
Qed.

Lemma replace_on_empty_text :
  forall old, Py.replace "" old "" = "".
Proof. intros [|c old]; reflexivity. Qed.

Lemma remove_names_absent :
  forall names t,
    forallb (fun name =>
               match name with
               | EmptyString => true
               | String _ _ => negb (Py.occurs name t)
               end) names = true ->
    remove_names names t = t.
Proof.
  unfold remove_names.
  induction names as [|name names IH]; intros t Hall; cbn in *.
  - reflexivity.
  - apply andb_true_iff in Hall as [Hname Hrest].
    assert (Hstep : Py.replace t name "" = t).
    { destruct name as [|c name]; cbn [Py.replace].
      - apply replace_empty_delete.
      - apply replace_from_absent. now apply negb_true_iff. }
    rewrite Hstep. now apply IH.
Qed.

Lemma remove_names_empty_text :
  forall names, remove_names names "" = "".
Proof.
  unfold remove_names.
  induction names as [|name names IH]; cbn; [reflexivity|].
  now rewrite replace_on_empty_text.
Qed.

Lemma lower_char_fixed :
  forall c, Py.lower_char (Py.lower_char c) = Py.lower_char c.
Proof. intros [[] [] [] [] [] [] [] []]; reflexivity. Qed.

Lemma lower_char_translator :
  forall c, translator (Py.lower_char c) = translator c.
Proof. intros [[] [] [] [] [] [] [] []]; reflexivity. Qed.

Lemma lower_lower : forall s, Py.lower (Py.lower s) = Py.lower s.
Proof.
  induction s as [|c s IH]; cbn; [reflexivity|].
  now rewrite lower_char_fixed, IH.
Qed.

(** [translator] only deletes. *)
Lemma translator_cases :
  forall c, translator c = Some None \/ translator c = None.
Proof.
  intros c. unfold translator, Py.maketrans_delete.
  destruct (Py.mem_char c punct); auto.
Qed.

Lemma translate_lower :
  forall s,
    Py.translate translator (Py.lower s)
    = Py.lower (Py.translate translator s).
Proof.
  induction s as [|c s IH]; cbn [Py.lower Py.translate]; [reflexivity|].
  rewrite lower_char_translator.
  destruct (translator_cases c) as [-> | ->]; cbn [Py.lower]; now rewrite IH.
Qed.

Lemma translate_translate :
  forall s,
    Py.translate translator (Py.translate translator s)
    = Py.translate translator s.
Proof.
  induction s as [|c s IH]; cbn [Py.translate]; [reflexivity|].
  destruct (translator_cases c) as [Hc | Hc]; rewrite Hc; [assumption|].
  cbn [Py.translate]. now rewrite Hc, IH.
Qed.

(** The last two steps of [preprocessText] change nothing the second time. *)
Lemma clean_clean :
  forall s,
    Py.translate translator
      (Py.lower (Py.translate translator (Py.lower s)))
    = Py.translate translator (Py.lower s).
Proof.
  intros s.
  rewrite <- (translate_lower (Py.lower s)), translate_translate.
  now rewrite lower_lower.
Qed.

Lemma preprocess_absent :
  forall t cardName,
    name_absent cardName t = true ->
    preprocessText t cardName = Py.translate translator (Py.lower t).
Proof.
  intros t cardName Habs. unfold preprocessText.
  now rewrite (remove_names_absent _ _ Habs).
Qed.

Lemma name_absent_empty_name : forall t, name_absent "" t = true.
Proof. reflexivity. Qed.

Lemma preprocess_empty_text : forall cardName, preprocessText "" cardName = "".
Proof.
  intros cardName. unfold preprocessText.
  now rewrite remove_names_empty_text.
Qed.

End StringFacts.

(** C6. Symbol preservation: with a card name none of whose sub-names occurs
    in it, the text ["{T}: Add {W}."] normalises to ["{t} add {w}"]: the
    braces stay, the colon and the period go, the letters are lowercased. *)
Theorem preprocessText_symbols :
  forall cardName,
    name_absent cardName "{T}: Add {W}." = true ->
    preprocessText "{T}: Add {W}." cardName = "{t} add {w}".
Proof.
  intros cardName Habs.
  rewrite (preprocess_absent _ _ Habs). reflexivity.
Qed.

Lemma preprocessText_symbols_witness :
  name_absent "Llanowar Elves" "{T}: Add {W}." = true /\
  preprocessText "{T}: Add {W}." "Llanowar Elves" = "{t} add {w}".
Proof.
  split; [reflexivity|].
  apply (preprocessText_symbols "Llanowar Elves"). reflexivity.
Defined.

(** C7. Idempotence: a text that [preprocessText] has produced is returned
    unchanged by [preprocessText] when the name is empty or has no
    occurrence of a sub-name left in the text. *)
Theorem preprocessText_idempotent :
  forall input_text name0 cardName,
    cardName = "" \/
    name_absent cardName (preprocessText input_text name0) = true ->
    preprocessText (preprocessText input_text name0) cardName
    = preprocessText input_text name0.
Proof.
  intros input_text name0 cardName Hname.
  assert (Habs : name_absent cardName (preprocessText input_text name0) = true).
  { destruct Hname as [-> | H]; [apply name_absent_empty_name | exact H]. }
  rewrite (preprocess_absent _ _ Habs).
  unfold preprocessText. apply clean_clean.
Qed.

Lemma preprocessText_idempotent_witness :
  name_absent "Fire // Ice"
    (preprocessText "Fire deals 2 damage. Ice: Tap it!" "Fire // Ice") = true /\
  preprocessText
    (preprocessText "Fire deals 2 damage. Ice: Tap it!" "Fire // Ice")
    "Fire // Ice"
  = preprocessText "Fire deals 2 damage. Ice: Tap it!" "Fire // Ice".
Proof.
  split; [reflexivity|].
  apply (preprocessText_idempotent
           "Fire deals 2 damage. Ice: Tap it!" "Fire // Ice" "Fire // Ice").
  right. reflexivity.
Defined.

(** ** The dictionary and the corpus *)

Section CorpusFacts.

Variable d : CardsDict.

Lemma lookup_present :
  forall k, In k (keys d) -> exists faces, lookup d k = Ok faces /\ In (k, faces) d.
Proof.
  induction d as [|[k' v] d' IH]; intros k Hin; cbn in *.
  - contradiction.
  - destruct (String.eqb k k') eqn:E.
    + apply String.eqb_eq in E; subst k'. exists v; auto.
    + destruct Hin as [-> | Hin]; [now rewrite String.eqb_refl in E|].
      destruct (IH k Hin) as (faces & Hl & Hi). exists faces; auto.
Qed.

Lemma lookup_is_key :
  forall k faces, lookup d k = Ok faces -> In k (keys d).
Proof.
  induction d as [|[k' v] d' IH]; intros k faces Hl; cbn in *.
  - discriminate.
  - destruct (String.eqb k k') eqn:E.
    + apply String.eqb_eq in E; auto.
    + right; eauto.
Qed.

Lemma contains_In : forall x l, contains x l = true <-> In x l.
Proof.
  intros x l; unfold contains. rewrite existsb_exists. split.
  - intros (y & Hy & E). apply String.eqb_eq in E. now subst.
  - intros H. exists x; split; [assumption | apply String.eqb_refl].
Qed.

Lemma shared_code_not_disjoint :
  forall code a b, In code a -> In code b -> isdisjoint a b = false.
Proof.
  intros code a b Ha Hb. unfold isdisjoint.
  destruct (forallb _ a) eqn:E; [|reflexivity].
  rewrite forallb_forall in E. specialize (E code Ha).
  apply negb_true_iff in E.
  apply contains_In in Hb. congruence.
Qed.

(** [isExcluded] on a card whose first face has both fields. *)
Lemma isExcluded_first_face :
  forall k cardEntry later card_types card_printings,
    lookup d k = Ok (cardEntry :: later) ->
    types cardEntry = Some card_types ->
    printings cardEntry = Some card_printings ->
    isExcluded d k
    = Ok (contains "Plane" card_types || contains "Scheme" card_types
          || negb (isdisjoint card_printings excludedSets)).
Proof.
  intros k cardEntry later card_types card_printings Hl Ht Hp.
  unfold isExcluded. rewrite Hl. cbn. rewrite Ht. cbn.
  destruct (contains "Plane" card_types || contains "Scheme" card_types);
    [reflexivity|].
  rewrite Hp. cbn. now destruct (isdisjoint card_printings excludedSets).
Qed.

Lemma isExcluded_readable :
  forall k faces,
    lookup d k = Ok faces -> entry_readable faces = true ->
    exists b, isExcluded d k = Ok b.
Proof.
  intros k faces Hl Hr. unfold isExcluded. rewrite Hl.
  destruct faces as [|cardEntry later]; [discriminate|].
  cbn in *. destruct (types cardEntry) as [card_types|]; [|discriminate].
  cbn. destruct (contains "Plane" card_types || contains "Scheme" card_types);
    cbn in *; [eauto|].
  destruct (printings cardEntry); [|discriminate].
  cbn. destruct (negb _); eauto.
Qed.

Lemma corpus_loop_rows :
  forall ks ns ts ns' ts',
    corpus_loop d ks ns ts = Ok (ns', ts') ->
    exists added_names added_texts,
      ns' = ns ++ added_names /\ ts' = ts ++ added_texts /\
      Forall2 (corpus_row d) added_names added_texts /\
      (forall k, In k added_names <-> In k ks /\ isExcluded d k = Ok false).
Proof.
  induction ks as [|k ks IH]; intros ns ts ns' ts' Hrun; cbn in Hrun.
  - injection Hrun as <- <-. exists [], []. rewrite !app_nil_r.
    split; [reflexivity|]. split; [reflexivity|].
    split; [constructor|]. intros k; cbn; tauto.
  - destruct (isExcluded d k) as [[|]|e] eqn:Hex; cbn in Hrun;
      [| |discriminate].
    + destruct (IH _ _ _ _ Hrun) as (an & at' & -> & -> & Hrows & Hin).
      exists an, at'. split; [reflexivity|]. split; [reflexivity|].
      split; [assumption|]. intros k'. rewrite Hin. cbn. split.
      * tauto.
      * intros [[<- | Hk] Hk']; [congruence | tauto].
    + destruct (getRawText d k) as [raw|e] eqn:Hraw; cbn in Hrun;
        [|discriminate].
      destruct (IH _ _ _ _ Hrun) as (an & at' & -> & -> & Hrows & Hin).
      exists (k :: an), (preprocessText raw k :: at').
      rewrite <- !app_assoc. split; [reflexivity|]. split; [reflexivity|].
      split.
      * constructor; [|assumption]. split; [assumption|]. now exists raw.
      * intros k'. cbn. rewrite Hin. split.
        -- intros [<- | [Hk Hk']]; tauto.
        -- intros [[<- | Hk] Hk']; tauto.
Qed.

Lemma constructCorpus_rows :
  forall names texts,
    constructCorpus d = Ok (names, texts) ->
    Forall2 (corpus_row d) names texts /\
    (forall k, In k names <-> In k (keys d) /\ isExcluded d k = Ok false).
Proof.
  intros names texts Hrun.
  destruct (corpus_loop_rows _ _ _ _ _ Hrun) as (an & at' & -> & -> & H).
  exact H.
Qed.

Lemma corpus_loop_total :
  readable d = true ->
  forall ks, incl ks (keys d) ->
  forall ns ts, exists r, corpus_loop d ks ns ts = Ok r.
Proof.
  intros Hread. induction ks as [|k ks IH]; intros Hks ns ts; cbn.
  - eauto.
  - assert (Hk : In k (keys d)) by (apply Hks; now left).
    assert (Hrest : incl ks (keys d)) by (intros x Hx; apply Hks; now right).
    destruct (lookup_present k Hk) as (faces & Hl & Hmem).
    unfold readable in Hread. rewrite forallb_forall in Hread.
    destruct (isExcluded_readable k faces Hl (Hread _ Hmem)) as [b ->].
    cbn. destruct b; [now apply IH|].
    unfold getRawText. rewrite Hl. cbn. now apply IH.
Qed.

Lemma constructCorpus_total :
  readable d = true ->
  exists names texts, constructCorpus d = Ok (names, texts).
Proof.
  intros Hread.
  destruct (corpus_loop_total Hread (keys d) (incl_refl _) [] []) as [[n t] H].
  now exists n, t.
Qed.

End CorpusFacts.

Lemma Forall2_In_combine :
  forall (A B : Type) (R : A -> B -> Prop) l1 l2 a,
    Forall2 R l1 l2 -> In a l1 -> exists b, In (a, b) (combine l1 l2) /\ R a b.
Proof.
  intros A B R l1 l2 a H. induction H as [|x y l1 l2 Hxy H IH]; cbn.
  - contradiction.
  - intros [-> | Hin]; [exists y; auto|].
    destruct (IH Hin) as (b & Hb & Hr). exists b; auto.
Qed.

Lemma Forall2_nth_error :
  forall (A B : Type) (R : A -> B -> Prop) l1 l2 i a,
    Forall2 R l1 l2 -> nth_error l1 i = Some a ->
    exists b, nth_error l2 i = Some b /\ R a b.
Proof.
  intros A B R l1 l2 i a H. revert i.
  induction H as [|x y l1 l2 Hxy H IH]; intros [|i] Hi; cbn in *;
    try discriminate.
  - injection Hi as ->. eauto.
  - eauto.
Qed.

Lemma Forall2_same_length :
  forall (A B : Type) (R : A -> B -> Prop) l1 l2,
    Forall2 R l1 l2 -> List.length l1 = List.length l2.
Proof. intros A B R l1 l2 H; induction H; cbn; congruence. Qed.

(** C8. Exclusion: a card whose printings (those of its first face, the
    only ones [isExcluded] reads) contain one of the codes of
    [excludedSets] is not among the names of the corpus that
    [constructCorpus] builds. *)
Theorem excluded_printing_not_in_corpus :
  forall (d : CardsDict) cardName cardEntry later card_printings code
         names texts,
    lookup d cardName = Ok (cardEntry :: later) ->
    printings cardEntry = Some card_printings ->
    In code card_printings ->
    In code excludedSets ->
    constructCorpus d = Ok (names, texts) ->
    ~ In cardName names.
Proof.
  intros d cardName cardEntry later card_printings code names texts
         Hl Hp Hcode Hex Hrun Hin.
  apply (constructCorpus_rows d) in Hrun as [_ Hnames].
  apply Hnames in Hin as [_ Hkept].
  destruct (types cardEntry) as [card_types|] eqn:Ht.
  - rewrite (isExcluded_first_face d _ _ _ _ _ Hl Ht Hp) in Hkept.
    rewrite (shared_code_not_disjoint code _ _ Hcode Hex) in Hkept.
    rewrite orb_true_r in Hkept. discriminate.
  - unfold isExcluded in Hkept. rewrite Hl in Hkept. cbn in Hkept.
    rewrite Ht in Hkept. discriminate.
Qed.

Lemma excluded_printing_not_in_corpus_witness :
  constructCorpus sample = Ok (sample_names, sample_texts) /\
  ~ In "Chaos Confetti" sample_names.
Proof.
  split; [reflexivity|].
  apply (excluded_printing_not_in_corpus
           sample "Chaos Confetti"
           (face "{4}, {T}: Tear Chaos Confetti into pieces."
                 ["Artifact"] ["UGL"])
           [] ["UGL"] "UGL" _ sample_texts).
  - reflexivity.
  - reflexivity.
  - cbn; tauto.
  - cbn; tauto.
  - reflexivity.
Defined.

(** C9. Only the first face decides: when the first face of a card names
    neither a Plane nor a Scheme and none of its printings is an excluded
    set, [isExcluded] returns [False] and the card is in the corpus,
    whatever the later faces hold. *)
Theorem first_face_decides_exclusion :
  forall (d : CardsDict) cardName cardEntry later card_types card_printings,
    lookup d cardName = Ok (cardEntry :: later) ->
    types cardEntry = Some card_types ->
    contains "Plane" card_types = false ->
    contains "Scheme" card_types = false ->
    printings cardEntry = Some card_printings ->
    isdisjoint card_printings excludedSets = true ->
    isExcluded d cardName = Ok false /\
    (forall names texts,
        constructCorpus d = Ok (names, texts) -> In cardName names) /\
    (readable d = true ->
     exists names texts,
       constructCorpus d = Ok (names, texts) /\ In cardName names).
Proof.
  intros d cardName cardEntry later card_types card_printings
         Hl Ht Hplane Hscheme Hp Hdis.
  assert (Hkept : isExcluded d cardName = Ok false).
  { rewrite (isExcluded_first_face d _ _ _ _ _ Hl Ht Hp).
    now rewrite Hplane, Hscheme, Hdis. }
  assert (Hin : forall names texts,
             constructCorpus d = Ok (names, texts) -> In cardName names).
  { intros names texts Hrun.
    apply (constructCorpus_rows d) in Hrun as [_ Hnames].
    apply Hnames. split; [|assumption]. eapply lookup_is_key; eassumption. }
  split; [assumption|]. split; [assumption|].
  intros Hread.
  destruct (constructCorpus_total d Hread) as (names & texts & Hrun).
  exists names, texts. split; [assumption|]. eapply Hin; eassumption.
Qed.

Lemma first_face_decides_exclusion_witness :
  isExcluded sample "Fire // Ice" = Ok false /\
  constructCorpus sample = Ok (sample_names, sample_texts) /\
  In "Fire // Ice" sample_names.
Proof.
  destruct (first_face_decides_exclusion
              sample "Fire // Ice"
              (face "Fire deals 2 damage divided as you choose among one or two targets."
                    ["Instant"] ["APC"])
              [face "Tap target permanent. Draw a card." ["Scheme"] ["UST"]]
              ["Instant"] ["APC"]
              eq_refl eq_refl eq_refl eq_refl eq_refl eq_refl)
    as (Hkept & Hin & _).
  split; [exact Hkept|]. split; [reflexivity|].
  apply (Hin sample_names sample_texts). reflexivity.
Defined.

(** C10. A card none of whose faces has a [text] field: [getRawText]
    returns the empty string, and when the card is not excluded the corpus
    holds it with the empty document. *)
Theorem textless_card_has_empty_document :
  forall (d : CardsDict) cardName faces,
    lookup d cardName = Ok faces ->
    (forall f, In f faces -> text f = None) ->
    getRawText d cardName = Ok "" /\
    (isExcluded d cardName = Ok false ->
     (forall names texts,
         constructCorpus d = Ok (names, texts) ->
         In (cardName, "") (combine names texts)) /\
     (readable d = true ->
      exists names texts,
        constructCorpus d = Ok (names, texts) /\
        In (cardName, "") (combine names texts))).
Proof.
  intros d cardName faces Hl Hnone.
  assert (Hraw : getRawText d cardName = Ok "").
  { unfold getRawText. rewrite Hl. cbn.
    replace (face_texts faces) with (@nil string); [reflexivity|].
    clear Hl. induction faces as [|f faces IH]; cbn; [reflexivity|].
    rewrite (Hnone f (or_introl eq_refl)).
    apply IH. intros f' Hf'. apply Hnone. now right. }
  split; [assumption|]. intros Hkept.
  assert (Hpair : forall names texts,
             constructCorpus d = Ok (names, texts) ->
             In (cardName, "") (combine names texts)).
  { intros names texts Hrun.
    apply (constructCorpus_rows d) in Hrun as [Hrows Hnames].
    assert (Hin : In cardName names).
    { apply Hnames. split; [|assumption]. eapply lookup_is_key; eassumption. }
    destruct (Forall2_In_combine _ _ _ _ _ _ Hrows Hin)
      as (t & Ht & _ & raw & Hraw' & ->).
    rewrite Hraw in Hraw'. injection Hraw' as <-.
    now rewrite preprocess_empty_text in Ht. }
  split; [assumption|]. intros Hread.
  destruct (constructCorpus_total d Hread) as (names & texts & Hrun).
  exists names, texts. split; [assumption|]. now apply Hpair.
Qed.

Lemma textless_card_has_empty_document_witness :
  getRawText sample "Grizzly Bears" = Ok "" /\
  constructCorpus sample = Ok (sample_names, sample_texts) /\
  In ("Grizzly Bears", "") (combine sample_names sample_texts).
Proof.
  assert (Hnone : forall f,
             In f [textless ["Creature"] ["LEA"]] -> text f = None).
  { intros f [<- | []]. reflexivity. }
  destruct (textless_card_has_empty_document
              sample "Grizzly Bears" [textless ["Creature"] ["LEA"]]
              eq_refl Hnone)
    as (Hraw & Hrest).
  split; [exact Hraw|]. split; [reflexivity|].
  destruct (Hrest eq_refl) as (Hpair & _).
  apply (Hpair sample_names sample_texts). reflexivity.
Defined.

(** ** Lists, slices and comprehensions *)

Section ListFacts.

Context {A : Type}.

Lemma StronglySorted_snoc :
  forall (R : A -> A -> Prop) l x,
    StronglySorted R l -> Forall (fun y => R y x) l ->
    StronglySorted R (l ++ [x]).
Proof.
  intros R l x Hs. induction Hs as [|a l Hs IH Ha]; intros Hx; cbn.
  - repeat constructor.
  - inversion Hx as [|? ? Hax Hlx]; subst. constructor; [now apply IH|].
    apply Forall_app; split; [assumption | now constructor].
Qed.

Lemma StronglySorted_rev :
  forall (R : A -> A -> Prop) l,
    StronglySorted R l -> StronglySorted (fun a b => R b a) (rev l).
Proof.
  intros R l Hs. induction Hs as [|a l Hs IH Ha]; cbn.
  - constructor.
  - apply StronglySorted_snoc; [assumption | now apply Forall_rev].
Qed.

Lemma StronglySorted_firstn :
  forall (R : A -> A -> Prop) k l,
    StronglySorted R l -> StronglySorted R (firstn k l).
Proof.
  intros R k l Hs. revert k.
  induction Hs as [|a l Hs IH Ha]; intros [|k]; cbn; try constructor.
  - apply IH.
  - rewrite Forall_forall in *. intros x Hx. apply Ha.
    rewrite <- (firstn_skipn k l). apply in_or_app. now left.
Qed.

Lemma StronglySorted_weaken :
  forall (R Q : A -> A -> Prop) l,
    (forall a b, In a l -> In b l -> R a b -> Q a b) ->
    StronglySorted R l -> StronglySorted Q l.
Proof.
  intros R Q l HRQ Hs. induction Hs as [|a l Hs IH Ha].
  - constructor.
  - constructor.
    + apply IH. intros x y Hx Hy. apply HRQ; now right.
    + rewrite Forall_forall in *. intros x Hx.
      apply HRQ; [now left | now right | now apply Ha].
Qed.

Lemma StronglySorted_map :
  forall (B : Type) (f : A -> B) (R : B -> B -> Prop) l,
    StronglySorted (fun a b => R (f a) (f b)) l ->
    StronglySorted R (map f l).
Proof.
  intros B f R l Hs. induction Hs as [|a l Hs IH Ha]; cbn; constructor.
  - assumption.
  - rewrite Forall_forall in *. intros y Hy.
    apply in_map_iff in Hy as (x & <- & Hx). now apply Ha.
Qed.

Lemma StronglySorted_and :
  forall (R Q : A -> A -> Prop) l,
    StronglySorted (fun a b => R a b /\ Q a b) l ->
    StronglySorted R l /\ StronglySorted Q l.
Proof.
  intros R Q l Hs; split;
    (eapply StronglySorted_weaken; [|exact Hs]); cbn; tauto.
Qed.

Lemma firstn_In : forall k (l : list A) x, In x (firstn k l) -> In x l.
Proof.
  intros k l x Hx. rewrite <- (firstn_skipn k l).
  apply in_or_app. now left.
Qed.

Lemma firstn_split :
  forall j k (l : list A),
    j <= k -> exists rest, firstn k l = firstn j l ++ rest.
Proof.
  induction j as [|j IH]; intros k l Hjk.
  - now exists (firstn k l).
  - destruct k as [|k]; [lia|]. destruct l as [|a l]; cbn.
    + now exists [].
    + destruct (IH k l ltac:(lia)) as [rest ->]. now exists rest.
Qed.

(** The two shapes of the notebook's slice [a[:-n-1:-1]]. *)
Lemma slice_top :
  forall (a : list A) n,
    (0 <= n)%Z ->
    slice_down_to a (- n - 1)%Z = firstn (Z.to_nat n) (rev a).
Proof.
  intros a n Hn. unfold slice_down_to.
  assert (Hlen : List.length (rev a) = List.length a) by apply length_rev.
  destruct (Z.ltb_spec (- n - 1) 0); [|lia].
  destruct (Z.ltb_spec (- n - 1 + Z.of_nat (List.length a)) 0).
  - destruct (Z.ltb_spec (-1) (Z.of_nat (List.length a) - 1)).
    + rewrite !firstn_all2; trivial; lia.
    + destruct (rev a); [now rewrite firstn_nil | cbn in Hlen; lia].
  - destruct (Z.ltb_spec (- n - 1 + Z.of_nat (List.length a))
                         (Z.of_nat (List.length a) - 1)).
    + f_equal. lia.
    + replace (Z.to_nat n) with 0 by lia. reflexivity.
Qed.

Lemma slice_negative :
  forall (a : list A) n,
    (n < 0)%Z ->
    slice_down_to a (- n - 1)%Z
    = firstn (Z.to_nat (Z.of_nat (List.length a) + n)) (rev a).
Proof.
  intros a n Hn. unfold slice_down_to.
  destruct (Z.ltb_spec (- n - 1) 0); [lia|].
  destruct (Z.leb_spec (Z.of_nat (List.length a)) (- n - 1)).
  - destruct (Z.ltb_spec (Z.of_nat (List.length a) - 1)
                         (Z.of_nat (List.length a) - 1)); [lia|].
    replace (Z.to_nat (Z.of_nat (List.length a) + n)) with 0 by lia.
    reflexivity.
  - destruct (Z.ltb_spec (- n - 1) (Z.of_nat (List.length a) - 1)).
    + f_equal. lia.
    + replace (Z.to_nat (Z.of_nat (List.length a) + n)) with 0 by lia.
      reflexivity.
Qed.

Lemma slice_zero : forall (a : list A), slice_down_to a (- 0 - 1)%Z = [].
Proof. intros a. now rewrite slice_top by lia. Qed.

Lemma slice_In :
  forall (a : list A) stop x, In x (slice_down_to a stop) -> In x a.
Proof.
  intros a stop x. unfold slice_down_to.
  destruct (_ <? _)%Z; [|contradiction].
  intros Hx. apply in_rev. eapply firstn_In; eassumption.
Qed.

End ListFacts.

Section TraverseFacts.

Context {A B : Type} (f : A -> result B).

Lemma traverse_Forall2 :
  forall (P : A -> B -> Prop) xs,
    Forall (fun x => exists y, f x = Ok y /\ P x y) xs ->
    exists ys, traverse f xs = Ok ys /\ Forall2 P xs ys.
Proof.
  intros P xs H. induction H as [|x xs (y & Hy & Hp) H IH]; cbn.
  - exists []; auto.
  - destruct IH as (ys & -> & Hys). rewrite Hy. cbn.
    exists (y :: ys); auto.
Qed.

Lemma traverse_firstn :
  forall k xs ys,
    traverse f xs = Ok ys -> traverse f (firstn k xs) = Ok (firstn k ys).
Proof.
  induction k as [|k IH]; intros xs ys Hrun; [reflexivity|].
  destruct xs as [|x xs]; cbn in *.
  - now injection Hrun as <-.
  - destruct (f x) as [y|e]; cbn in *; [|discriminate].
    destruct (traverse f xs) as [ys'|e] eqn:Hxs; cbn in *; [|discriminate].
    injection Hrun as <-. cbn. now rewrite (IH _ _ Hxs).
Qed.

Lemma traverse_length :
  forall xs ys, traverse f xs = Ok ys -> List.length ys = List.length xs.
Proof.
  induction xs as [|x xs IH]; intros ys Hrun; cbn in *.
  - now injection Hrun as <-.
  - destruct (f x) as [y|e]; cbn in *; [|discriminate].
    destruct (traverse f xs) as [ys'|e] eqn:Hxs; cbn in *; [|discriminate].
    injection Hrun as <-. cbn. now rewrite (IH _ eq_refl).
Qed.

End TraverseFacts.

(** ** The stable insertion sort *)

Section InsertionSort.

Context {A : Type} (less : A -> A -> bool).
Hypothesis less_order : StrictWeakOrder less.

Lemma insert_permutation :
  forall vi vp sorted_rev,
    Permutation (insert_from_right less vi vp sorted_rev)
                ((vi, vp) :: sorted_rev).
Proof.
  intros vi vp. induction sorted_rev as [|[k vk] rest IH]; cbn.
  - apply Permutation_refl.
  - destruct (less vp vk).
    + eapply perm_trans; [apply perm_skip, IH | apply perm_swap].
    + apply Permutation_refl.
Qed.

Lemma insert_sorted :
  forall vi vp sorted_rev,
    StronglySorted (above less) sorted_rev ->
    Forall (fun q => fst q < vi) sorted_rev ->
    StronglySorted (above less) (insert_from_right less vi vp sorted_rev).
Proof.
  intros vi vp sorted_rev Hs. induction Hs as [|[k vk] rest Hs IH Hk];
    intros Hidx; cbn.
  - repeat constructor.
  - inversion Hidx as [|? ? Hkvi Hrest]; subst. cbn in Hkvi.
    destruct (less vp vk) eqn:Hcmp.
    + constructor; [now apply IH|].
      eapply Permutation_Forall;
        [apply Permutation_sym, insert_permutation|].
      constructor; [|assumption]. split; cbn.
      * now apply (less_asym less less_order).
      * intros Heq. congruence.
    + constructor; [now constructor|].
      constructor; [split; cbn; auto|].
      rewrite Forall_forall in *. intros q Hq. split; cbn.
      * destruct (Hk q Hq) as [Hkq _]. cbn in Hkq.
        now apply (less_cotrans less less_order vp vk (snd q)).
      * intros _. now apply Hrest.
Qed.

Lemma pass_invariant :
  forall v s sorted_rev,
    StronglySorted (above less) sorted_rev ->
    Forall (fun q => fst q < s) sorted_rev ->
    StronglySorted (above less)
      (fold_left (fun acc p => insert_from_right less (fst p) (snd p) acc)
                 (combine (seq s (List.length v)) v) sorted_rev) /\
    Permutation
      (fold_left (fun acc p => insert_from_right less (fst p) (snd p) acc)
                 (combine (seq s (List.length v)) v) sorted_rev)
      (combine (seq s (List.length v)) v ++ sorted_rev).
Proof.
  induction v as [|x v IH]; intros s sorted_rev Hs Hidx; cbn.
  - split; [assumption | apply Permutation_refl].
  - assert (Hs' : StronglySorted (above less) (insert_from_right less s x sorted_rev))
      by now apply insert_sorted.
    assert (Hidx' : Forall (fun q => fst q < S s)
                           (insert_from_right less s x sorted_rev)).
    { eapply Permutation_Forall;
        [apply Permutation_sym, insert_permutation|].
      constructor; [cbn; lia|].
      eapply Forall_impl; [|exact Hidx]. cbn; intros; lia. }
    destruct (IH (S s) _ Hs' Hidx') as [Hsorted Hperm].
    split; [assumption|].
    eapply perm_trans; [exact Hperm|].
    eapply perm_trans;
      [apply Permutation_app_head, insert_permutation|].
    apply Permutation_sym, Permutation_middle.
Qed.

Lemma combine_seq_fst :
  forall (v : list A) s, map fst (combine (seq s (List.length v)) v)
                         = seq s (List.length v).
Proof.
  induction v as [|x v IH]; intros s; cbn; [reflexivity|].
  now rewrite IH.
Qed.

Lemma combine_seq_value :
  forall (v : list A) s i a,
    In (i, a) (combine (seq s (List.length v)) v) ->
    s <= i /\ nth_error v (i - s) = Some a.
Proof.
  induction v as [|x v IH]; intros s i a Hin; cbn in *.
  - contradiction.
  - destruct Hin as [E | Hin].
    + injection E as <- <-. rewrite Nat.sub_diag. auto.
    + destruct (IH _ _ _ Hin) as [Hle Hv]. split; [lia|].
      replace (i - s) with (S (i - S s)) by lia. exact Hv.
Qed.

Lemma insertion_pass_sorted :
  forall v,
    StronglySorted (above less)
      (insertion_pass less (combine (seq 0 (List.length v)) v)) /\
    Permutation (insertion_pass less (combine (seq 0 (List.length v)) v))
                (combine (seq 0 (List.length v)) v).
Proof.
  intros v. unfold insertion_pass.
  destruct (pass_invariant v 0 [] (SSorted_nil _) (Forall_nil _)) as [Hs Hp].
  split; [assumption|]. now rewrite app_nil_r in Hp.
Qed.

Lemma stable_argsort_permutation :
  forall v, Permutation (stable_argsort less v) (seq 0 (List.length v)).
Proof.
  intros v. unfold stable_argsort.
  eapply perm_trans; [apply Permutation_sym, Permutation_rev|].
  eapply perm_trans;
    [apply Permutation_map, (proj2 (insertion_pass_sorted v))|].
  rewrite combine_seq_fst. apply Permutation_refl.
Qed.

(** The ranking read off the stable insertion sort, best score first, is in
    descending order of score, and equal scores are in reverse order of
    position. *)
Lemma stable_ranking_sorted :
  forall v,
    descending less v (rev (stable_argsort less v)) /\
    ties_reversed less v (rev (stable_argsort less v)).
Proof.
  intros v. unfold stable_argsort. rewrite rev_involutive.
  destruct (insertion_pass_sorted v) as [Hs Hp].
  apply StronglySorted_and, StronglySorted_map.
  eapply StronglySorted_weaken; [|exact Hs].
  intros [i a] [j b] Hi Hj [Hab Htie]. cbn in *.
  apply (Permutation_in _ Hp), combine_seq_value in Hi as [_ Hi].
  apply (Permutation_in _ Hp), combine_seq_value in Hj as [_ Hj].
  rewrite Nat.sub_0_r in Hi, Hj.
  split; intros a' b' Ha' Hb';
    rewrite Hi in Ha'; rewrite Hj in Hb';
    injection Ha' as <-; injection Hb' as <-; assumption.
Qed.

Lemma stable_argsort_ascending :
  forall v, ascending less v (stable_argsort less v).
Proof.
  intros v. unfold ascending.
  rewrite <- (rev_involutive (stable_argsort less v)).
  eapply StronglySorted_weaken;
    [|apply StronglySorted_rev, (proj1 (stable_ranking_sorted v))].
  cbn. intros i j _ _ H a b Hi Hj. eauto.
Qed.

End InsertionSort.

Lemma Zltb_order : StrictWeakOrder Z.ltb.
Proof.
  split; intros; rewrite ?Z.ltb_lt, ?Z.ltb_ge in *; lia.
Qed.

Lemma WordOverlap_contract : ArgsortContract WordOverlap.
Proof.
  split; intros v.
  - apply stable_argsort_permutation, Zltb_order.
  - apply stable_argsort_ascending, Zltb_order.
Qed.

(** ** The session and the ranking *)

Lemma StronglySorted_before :
  forall (A : Type) (R : A -> A -> Prop) pre x post,
    StronglySorted R (pre ++ x :: post) -> Forall (fun y => R y x) pre.
Proof.
  intros A R pre x post. induction pre as [|y pre IH]; cbn; intros Hs.
  - constructor.
  - apply StronglySorted_inv in Hs as [Hs Hy]. constructor; [|now apply IH].
    rewrite Forall_forall in Hy. apply Hy, in_or_app. right. now left.
Qed.

Lemma descending_of_ascending :
  forall (A : Type) (less : A -> A -> bool) v idx,
    ascending less v idx -> descending less v (rev idx).
Proof.
  intros A less v idx Hasc. unfold descending.
  eapply StronglySorted_weaken; [|apply StronglySorted_rev, Hasc].
  cbn. intros i j _ _ H a b Hi Hj. eauto.
Qed.

(** A position with fewer than [k] rivals is among the first [k] of any
    descending arrangement of all positions. *)
Lemma top_contains :
  forall (A : Type) (less : A -> A -> bool) (v : list A) idx i k,
    Permutation idx (seq 0 (List.length v)) ->
    descending less v idx ->
    i < List.length v ->
    List.length (rivals less v i) < k ->
    In i (firstn k idx).
Proof.
  intros A less v idx i k Hperm Hdesc Hi Hk.
  assert (Hin : In i idx).
  { apply (Permutation_in _ (Permutation_sym Hperm)), in_seq. lia. }
  apply in_split in Hin as (pre & post & ->).
  assert (Hnodup : NoDup (pre ++ i :: post)).
  { apply (Permutation_NoDup (Permutation_sym Hperm)), seq_NoDup. }
  assert (Hpre : List.length pre <= List.length (rivals less v i)).
  { apply NoDup_incl_length.
    - apply NoDup_remove_1 in Hnodup. now apply NoDup_app_remove_r in Hnodup.
    - intros j Hj. unfold rivals. apply filter_In.
      assert (Hjrange : j < List.length v).
      { assert (Hjs : In j (seq 0 (List.length v))).
        { apply (Permutation_in _ Hperm), in_or_app. now left. }
        apply in_seq in Hjs. lia. }
      split; [apply in_seq; lia|].
      assert (Hji : j <> i).
      { intros ->. apply NoDup_remove_2 in Hnodup.
        apply Hnodup, in_or_app. now left. }
      apply Nat.eqb_neq in Hji. rewrite Hji. cbn.
      destruct (nth_error v j) as [a|] eqn:Ha;
        [|apply nth_error_None in Ha; lia].
      destruct (nth_error v i) as [b|] eqn:Hb;
        [|apply nth_error_None in Hb; lia].
      apply StronglySorted_before in Hdesc.
      rewrite Forall_forall in Hdesc.
      now rewrite (Hdesc j Hj a b Ha Hb). }
  rewrite firstn_app. apply in_or_app. right.
  destruct (k - List.length pre) as [|m] eqn:E; [lia|]. now left.
Qed.

Section SessionFacts.

Variable L : Library.
Variable d : CardsDict.
Variable g : Session L.
Hypothesis started : run_notebook L d = Ok g.

Lemma session_corpus :
  cards_dict g = d /\
  constructCorpus d = Ok (cardNames g, cardTexts g) /\
  tfs g = map (transform L (tfidf g)) (cardTexts g).
Proof.
  unfold run_notebook in started.
  destruct (constructCorpus d) as [[names texts]|e]; [|discriminate].
  cbn in started.
  destruct (fit L (tokenize L) my_stop_words texts) as [model|e];
    [|discriminate].
  cbn in started. injection started as <-. cbn. auto.
Qed.

Lemma session_rows : Forall2 (corpus_row d) (cardNames g) (cardTexts g).
Proof.
  destruct session_corpus as (_ & Hrun & _).
  now apply constructCorpus_rows in Hrun.
Qed.

Lemma scores_length :
  forall cardText,
    List.length (cosine_similarities L g cardText) = List.length (cardNames g).
Proof.
  intros cardText. unfold cosine_similarities.
  destruct session_corpus as (_ & _ & ->).
  rewrite !length_map. symmetry.
  exact (Forall2_same_length _ _ _ _ _ session_rows).
Qed.

(** The score of a corpus document against a query. *)
Lemma score_at :
  forall cardText i doc,
    nth_error (cardTexts g) i = Some doc ->
    nth_error (cosine_similarities L g cardText) i
    = Some (cosine_similarity L (transform L (tfidf g) cardText)
                              (transform L (tfidf g) doc)).
Proof.
  intros cardText i doc Hdoc. unfold cosine_similarities.
  destruct session_corpus as (_ & _ & ->).
  rewrite !nth_error_map, Hdoc. reflexivity.
Qed.

(** [getSimilarCards] asks with the card's own corpus document. *)
Lemma own_document :
  forall i cardName,
    nth_error (cardNames g) i = Some cardName ->
    exists raw,
      getRawText (cards_dict g) cardName = Ok raw /\
      nth_error (cardTexts g) i = Some (preprocessText raw cardName).
Proof.
  intros i cardName Hname.
  destruct (Forall2_nth_error _ _ _ _ _ _ _ session_rows Hname)
    as (doc & Hdoc & _ & raw & Hraw & ->).
  destruct session_corpus as (-> & _). now exists raw.
Qed.

Hypothesis contract : ArgsortContract L.

Lemma ranking_in_range :
  forall cardText idx,
    In idx (argsort L (cosine_similarities L g cardText)) ->
    idx < List.length (cardNames g).
Proof.
  intros cardText idx Hin.
  apply (Permutation_in _ (argsort_permutation L contract _)) in Hin.
  apply in_seq in Hin. rewrite scores_length in Hin. lia.
Qed.

Lemma names_of_indices :
  forall cardText idxs,
    incl idxs (argsort L (cosine_similarities L g cardText)) ->
    exists names,
      traverse (fun idx => subscript (cardNames g) idx) idxs = Ok names /\
      Forall2 (fun idx name => nth_error (cardNames g) idx = Some name)
              idxs names.
Proof.
  intros cardText idxs Hincl. apply traverse_Forall2.
  apply Forall_forall. intros idx Hidx.
  apply Hincl, ranking_in_range in Hidx.
  unfold subscript.
  destruct (nth_error (cardNames g) idx) as [name|] eqn:E; [eauto|].
  apply nth_error_None in E. lia.
Qed.

(** The whole ranking, and every request as a prefix of it. *)
Lemma full_ranking :
  forall cardText,
    exists full,
      traverse (fun idx => subscript (cardNames g) idx)
               (rev (argsort L (cosine_similarities L g cardText))) = Ok full /\
      List.length full = List.length (cardNames g) /\
      (forall n, (0 <= n)%Z ->
                 getSimilarTexts L g cardText n
                 = Ok (firstn (Z.to_nat n) full)) /\
      (forall n, (n < 0)%Z ->
                 getSimilarTexts L g cardText n
                 = Ok (firstn (Z.to_nat
                                 (Z.of_nat (List.length (cardNames g)) + n))
                              full)).
Proof.
  intros cardText.
  destruct (names_of_indices cardText
              (rev (argsort L (cosine_similarities L g cardText))))
    as (full & Hfull & _).
  { intros idx Hidx. now apply in_rev. }
  assert (Hlen : List.length (argsort L (cosine_similarities L g cardText))
                 = List.length (cardNames g)).
  { rewrite (Permutation_length (argsort_permutation L contract _)).
    now rewrite length_seq, scores_length. }
  exists full. split; [assumption|]. split.
  { rewrite (traverse_length _ _ _ Hfull), length_rev. exact Hlen. }
  split; intros n Hn; unfold getSimilarTexts, related_docs_indices.
  - rewrite slice_top by assumption. now apply traverse_firstn.
  - rewrite slice_negative by assumption. rewrite Hlen.
    now apply traverse_firstn.
Qed.

Lemma ranking_descending :
  forall cardText n,
    descending (score_lt L) (cosine_similarities L g cardText)
               (related_docs_indices L g cardText n).
Proof.
  intros cardText n. unfold related_docs_indices, slice_down_to.
  destruct (_ <? _)%Z; [|constructor].
  apply StronglySorted_firstn, descending_of_ascending.
  apply (argsort_ascending L contract).
Qed.

End SessionFacts.

(** ** The ranking functions *)

(** C1 (as amended). [getSimilarCards] for a card of the corpus ranks the
    corpus against that card's own corpus document, so the card's score is
    the similarity of its row with itself; the card is in the result when
    fewer than [k] other corpus entries score at least as high as it. *)
Theorem card_found_among_its_rivals :
  forall (L : Library) d (g : Session L) cardName i k,
    ArgsortContract L ->
    run_notebook L d = Ok g ->
    nth_error (cardNames g) i = Some cardName ->
    exists cardText,
      nth_error (cardTexts g) i = Some cardText /\
      getSimilarCards L g cardName k = getSimilarTexts L g cardText k /\
      nth_error (cosine_similarities L g cardText) i
      = Some (cosine_similarity L (transform L (tfidf g) cardText)
                                (transform L (tfidf g) cardText)) /\
      ((Z.of_nat (List.length
                    (rivals (score_lt L) (cosine_similarities L g cardText) i))
        < k)%Z ->
       exists closest,
         getSimilarCards L g cardName k = Ok closest /\ In cardName closest).
Proof.
  intros L d g cardName i k Hsort Hrun Hname.
  destruct (own_document L d g Hrun i cardName Hname) as (raw & Hraw & Hdoc).
  exists (preprocessText raw cardName).
  assert (Hcall : getSimilarCards L g cardName k
                  = getSimilarTexts L g (preprocessText raw cardName) k).
  { unfold getSimilarCards. now rewrite Hraw. }
  split; [assumption|]. split; [assumption|].
  split; [now apply (score_at L d g Hrun)|].
  intros Hk. rewrite Hcall.
  set (cardText := preprocessText raw cardName) in *.
  destruct (full_ranking L d g Hrun Hsort cardText)
    as (full & Hfull & Hlen & Htop & _).
  assert (Hk0 : (0 <= k)%Z) by lia.
  rewrite (Htop k Hk0). eexists; split; [reflexivity|].
  assert (Hi : i < List.length (cardNames g)).
  { apply nth_error_Some. congruence. }
  assert (Hpos : In i (firstn (Z.to_nat k)
                         (rev (argsort L (cosine_similarities L g cardText))))).
  { apply (top_contains _ (score_lt L) (cosine_similarities L g cardText)).
    - eapply perm_trans; [apply Permutation_sym, Permutation_rev|].
      apply (argsort_permutation L Hsort).
    - apply descending_of_ascending, (argsort_ascending L Hsort).
    - now rewrite (scores_length L d g Hrun).
    - lia. }
  destruct (names_of_indices L d g Hrun Hsort cardText
              (firstn (Z.to_nat k)
                 (rev (argsort L (cosine_similarities L g cardText)))))
    as (names & Hnames & Hrel).
  { intros idx Hidx. apply in_rev. eapply firstn_In; eassumption. }
  rewrite (traverse_firstn _ _ _ _ Hfull) in Hnames.
  injection Hnames as <-.
  destruct (Forall2_In_combine _ _ _ _ _ _ Hrel Hpos) as (name & Hpair & Hnm).
  rewrite Hname in Hnm. injection Hnm as <-.
  now apply in_combine_r in Hpair.
Qed.

Lemma card_found_among_its_rivals_witness :
  getSimilarCards WordOverlap sample_session "Giant Growth" 2
  = Ok ["Giant Growth"; "Brute Force"] /\
  exists closest,
    getSimilarCards WordOverlap sample_session "Giant Growth" 2 = Ok closest /\
    In "Giant Growth" closest.
Proof.
  split; [reflexivity|].
  destruct (card_found_among_its_rivals
              WordOverlap sample sample_session "Giant Growth" 2 2
              WordOverlap_contract eq_refl eq_refl)
    as (cardText & Hdoc & _ & _ & Hfound).
  injection Hdoc as <-. apply Hfound. cbn. lia.
Defined.

Lemma twins_texts :
  getRawText twins "Giant Growth" = Ok growth_text /\
  getRawText twins "Brute Force" = Ok growth_text /\
  preprocessText growth_text "Giant Growth" = growth_clean /\
  preprocessText growth_text "Brute Force" = growth_clean /\
  constructCorpus twins
  = Ok (["Brute Force"; "Giant Growth"], [growth_clean; growth_clean]).
Proof. repeat split; vm_compute; reflexivity. Qed.

(** C1 as stated fails. Two cards with the same text tie: a request for
    one result cannot hold both, whatever the libraries compute, and with
    an [argsort] that leaves two equal values in place (as NumPy's does)
    it is the first of the two, Brute Force, that its own request leaves
    out. *)
Lemma twin_cards_displace_each_other :
  getSimilarCards WordOverlap twins_session "Brute Force" 1
  = Ok ["Giant Growth"] /\
  (~ exists (L : Library) (g : Session L),
       run_notebook L twins = Ok g /\
       (exists closest,
           getSimilarCards L g "Giant Growth" 1 = Ok closest /\
           In "Giant Growth" closest) /\
       (exists closest,
           getSimilarCards L g "Brute Force" 1 = Ok closest /\
           In "Brute Force" closest)) /\
  (~ exists (L : Library) (g : Session L) closest,
       (forall x, score_lt L x x = false) /\
       sorts_a_pair L /\
       run_notebook L twins = Ok g /\
       getSimilarCards L g "Brute Force" 1 = Ok closest /\
       In "Brute Force" closest).
Proof.
  split; [reflexivity|].
  destruct twins_texts as (Hraw1 & Hraw2 & Hclean1 & Hclean2 & Htwins).
  split.
  - intros (L & g & Hrun & (r1 & Hr1 & Hin1) & (r2 & Hr2 & Hin2)).
    destruct (session_corpus L twins g Hrun) as (Hd & _ & _). clear Hrun.
    unfold getSimilarCards in Hr1, Hr2. rewrite Hd in Hr1, Hr2.
    rewrite Hraw1 in Hr1. rewrite Hraw2 in Hr2.
    cbn [bind] in Hr1, Hr2. rewrite Hclean1 in Hr1. rewrite Hclean2 in Hr2.
    rewrite Hr1 in Hr2. injection Hr2 as <-.
    unfold getSimilarTexts, related_docs_indices in Hr1.
    apply traverse_length in Hr1.
    rewrite slice_top in Hr1 by lia.
    pose proof (firstn_le_length (Z.to_nat 1)
                  (rev (argsort L (cosine_similarities L g growth_clean))))
      as Hle.
    rewrite <- Hr1 in Hle. change (Z.to_nat 1) with 1 in Hle.
    destruct r1 as [|x [|y r1]].
    + destruct Hin1.
    + destruct Hin1 as [E1 | []]. destruct Hin2 as [E2 | []]. congruence.
    + cbn [List.length] in Hle. lia.
  - intros (L & g & closest & Hirrefl & Hpair & Hrun & Hres & Hin).
    destruct (session_corpus L twins g Hrun) as (Hd & Hcorpus & Htfs).
    clear Hrun.
    rewrite Htwins in Hcorpus. injection Hcorpus as Hnames Htexts.
    unfold getSimilarCards in Hres. rewrite Hd, Hraw2 in Hres.
    cbn [bind] in Hres. rewrite Hclean2 in Hres.
    unfold getSimilarTexts, related_docs_indices, cosine_similarities in Hres.
    rewrite Htfs, <- Htexts, <- Hnames in Hres.
    cbn [map] in Hres.
    set (c := cosine_similarity L _ _) in Hres.
    rewrite (Hpair c c), Hirrefl in Hres. vm_compute in Hres.
    injection Hres as <-. destruct Hin as [E | []]. discriminate E.
Qed.

(** C2 (as amended). The ranking of [getSimilarTexts] is in descending
    order of cosine score, for every query and every count. (The order
    among equal scores is the one [argsort], read backwards, gives them.) *)
Theorem ranking_sorted_by_score :
  forall (L : Library) d (g : Session L) cardText n,
    ArgsortContract L ->
    run_notebook L d = Ok g ->
    exists closest,
      getSimilarTexts L g cardText n = Ok closest /\
      Forall2 (fun idx name => nth_error (cardNames g) idx = Some name)
              (related_docs_indices L g cardText n) closest /\
      descending (score_lt L) (cosine_similarities L g cardText)
                 (related_docs_indices L g cardText n).
Proof.
  intros L d g cardText n Hsort Hrun.
  destruct (names_of_indices L d g Hrun Hsort cardText
              (related_docs_indices L g cardText n))
    as (closest & Hclosest & Hrel).
  { intros idx Hidx. eapply slice_In; exact Hidx. }
  exists closest. split; [exact Hclosest|]. split; [exact Hrel|].
  now apply ranking_descending.
Qed.

Lemma ranking_sorted_by_score_witness :
  getSimilarTexts WordOverlap sample_session "target creature" 3
  = Ok ["Giant Growth"; "Brute Force"; "Fire // Ice"] /\
  exists closest,
    getSimilarTexts WordOverlap sample_session "target creature" 3 = Ok closest /\
    Forall2 (fun idx name => nth_error sample_names idx = Some name)
            (related_docs_indices WordOverlap sample_session
                                  "target creature" 3)
            closest /\
    descending Z.ltb
               (cosine_similarities WordOverlap sample_session "target creature")
               (related_docs_indices WordOverlap sample_session
                                     "target creature" 3).
Proof.
  split; [reflexivity|].
  exact (ranking_sorted_by_score
           WordOverlap sample sample_session "target creature" 3
           WordOverlap_contract eq_refl).
Defined.

(** C2 as stated fails: the two cards of [twins] have the same document,
    so their scores are equal for every query, and an [argsort] that
    leaves two values in place unless the second is below the first (as
    NumPy's does) is read backwards: the later card, Giant Growth, comes
    first, and no query returns the two in corpus order. *)
Lemma equal_scores_come_out_reversed :
  getSimilarTexts WordOverlap twins_session growth_clean 2
  = Ok ["Giant Growth"; "Brute Force"] /\
  ~ exists (L : Library) (g : Session L) cardText,
      (forall x, score_lt L x x = false) /\
      sorts_a_pair L /\
      run_notebook L twins = Ok g /\
      getSimilarTexts L g cardText 2 = Ok ["Brute Force"; "Giant Growth"].
Proof.
  split; [reflexivity|].
  intros (L & g & cardText & Hirrefl & Hpair & Hrun & Hres).
  destruct (session_corpus L twins g Hrun) as (_ & Hcorpus & Htfs).
  clear Hrun.
  destruct twins_texts as (_ & _ & _ & _ & Htwins).
  rewrite Htwins in Hcorpus. injection Hcorpus as Hnames Htexts.
  unfold getSimilarTexts, related_docs_indices, cosine_similarities in Hres.
  rewrite Htfs, <- Htexts, <- Hnames in Hres.
  cbn [map] in Hres.
  set (c := cosine_similarity L _ _) in Hres.
  rewrite (Hpair c c), Hirrefl in Hres.
  vm_compute in Hres. discriminate Hres.
Qed.

(** C3 (as amended). A count that is not positive raises nothing:
    [getSimilarTexts] returns the empty list for 0, and for a negative [n]
    the first [N + n] names of the whole ranking of the [N] corpus entries
    (none when [N + n] is not positive); [getSimilarCards] of a card that
    the dictionary has returns the same. *)
Theorem nonpositive_count_is_answered :
  forall (L : Library) d (g : Session L) cardText n,
    ArgsortContract L ->
    run_notebook L d = Ok g ->
    (n <= 0)%Z ->
    exists full,
      getSimilarTexts L g cardText (Z.of_nat (List.length (cardNames g)))
      = Ok full /\
      List.length full = List.length (cardNames g) /\
      getSimilarTexts L g cardText n
      = Ok (if (n =? 0)%Z then []
            else firstn (Z.to_nat (Z.of_nat (List.length (cardNames g)) + n))
                        full) /\
      (forall cardName raw,
          getRawText (cards_dict g) cardName = Ok raw ->
          getSimilarCards L g cardName n
          = getSimilarTexts L g (preprocessText raw cardName) n).
Proof.
  intros L d g cardText n Hsort Hrun Hn.
  destruct (full_ranking L d g Hrun Hsort cardText)
    as (full & _ & Hlen & Htop & Hneg).
  exists full. split; [|split; [exact Hlen|split]].
  - rewrite Htop by lia. rewrite Nat2Z.id, <- Hlen. now rewrite firstn_all.
  - destruct (Z.eqb_spec n 0) as [-> | Hn0].
    + now rewrite Htop by lia.
    + apply Hneg. lia.
  - intros cardName raw Hraw. unfold getSimilarCards. now rewrite Hraw.
Qed.

Lemma nonpositive_count_is_answered_witness :
  getSimilarTexts WordOverlap sample_session "target creature" (-2)
  = Ok ["Giant Growth"; "Brute Force"; "Fire // Ice"] /\
  exists full,
    getSimilarTexts WordOverlap sample_session "target creature" 5 = Ok full /\
    getSimilarTexts WordOverlap sample_session "target creature" (-2)
    = Ok (firstn 3 full).
Proof.
  split; [reflexivity|].
  destruct (nonpositive_count_is_answered
              WordOverlap sample sample_session "target creature" (-2)
              WordOverlap_contract eq_refl ltac:(lia))
    as (full & Hfull & _ & Hcut & _).
  exists full. split; [exact Hfull | exact Hcut].
Defined.

(** C3 as stated fails: with the count 0 no query on any session raises
    an error; the answer is the empty list. *)
Lemma zero_count_raises_nothing :
  getSimilarCards WordOverlap sample_session "Giant Growth" 0 = Ok [] /\
  ~ exists (L : Library) (g : Session L) cardText e,
      getSimilarTexts L g cardText 0 = Raise e.
Proof.
  split; [reflexivity|].
  intros (L & g & cardText & e & Hres).
  unfold getSimilarTexts, related_docs_indices in Hres.
  rewrite slice_zero in Hres. discriminate Hres.
Qed.

(** C4. Monotonic ranking: for counts [1 <= n1 < n2] the list returned for
    [n1] is a prefix of the list returned for [n2]. *)
Theorem top_n_prefix :
  forall (L : Library) d (g : Session L) cardText n1 n2,
    ArgsortContract L ->
    run_notebook L d = Ok g ->
    (1 <= n1 < n2)%Z ->
    exists closest1 rest,
      getSimilarTexts L g cardText n1 = Ok closest1 /\
      getSimilarTexts L g cardText n2 = Ok (closest1 ++ rest).
Proof.
  intros L d g cardText n1 n2 Hsort Hrun Hn.
  destruct (full_ranking L d g Hrun Hsort cardText)
    as (full & _ & _ & Htop & _).
  destruct (firstn_split (Z.to_nat n1) (Z.to_nat n2) full ltac:(lia))
    as (rest & Hrest).
  exists (firstn (Z.to_nat n1) full), rest.
  rewrite !Htop by lia. now rewrite Hrest.
Qed.

Lemma top_n_prefix_witness :
  getSimilarTexts WordOverlap sample_session "target creature" 1
  = Ok ["Giant Growth"] /\
  exists closest1 rest,
    getSimilarTexts WordOverlap sample_session "target creature" 1
    = Ok closest1 /\
    getSimilarTexts WordOverlap sample_session "target creature" 3
    = Ok (closest1 ++ rest).
Proof.
  split; [reflexivity|].
  apply (top_n_prefix WordOverlap sample sample_session "target creature" 1 3
                      WordOverlap_contract eq_refl).
  lia.
Defined.

(** * Further properties of the notebook's functions *)

(** ** The corpus *)

Section CorpusOrder.

Variable d : CardsDict.

Lemma corpus_loop_names :
  forall ks ns ts ns' ts',
    corpus_loop d ks ns ts = Ok (ns', ts') ->
    ns' = ns ++ filter (kept d) ks.
Proof.
  induction ks as [|k ks IH]; intros ns ts ns' ts' Hrun; cbn in Hrun.
  - injection Hrun as <- _. cbn. now rewrite app_nil_r.
  - cbn [filter]. unfold kept at 1.
    destruct (isExcluded d k) as [[|]|e]; cbn in Hrun; [| |discriminate].
    + eapply IH; eassumption.
    + destruct (getRawText d k) as [raw|e]; cbn in Hrun; [|discriminate].
      rewrite (IH _ _ _ _ Hrun), <- app_assoc. reflexivity.
Qed.

Lemma corpus_loop_answers :
  forall ks ns ts r,
    corpus_loop d ks ns ts = Ok r ->
    forall k, In k ks -> exists b, isExcluded d k = Ok b.
Proof.
  induction ks as [|k ks IH]; intros ns ts r Hrun k' Hk'; cbn in *.
  - contradiction.
  - destruct (isExcluded d k) as [b|e] eqn:Hex; cbn in Hrun; [|discriminate].
    destruct Hk' as [<- | Hk']; [eauto|].
    destruct b.
    + eapply IH; eassumption.
    + destruct (getRawText d k); cbn in Hrun; [|discriminate].
      eapply IH; eassumption.
Qed.

Lemma isExcluded_answer_readable :
  forall k b,
    isExcluded d k = Ok b ->
    exists faces, lookup d k = Ok faces /\ entry_readable faces = true.
Proof.
  intros k b. unfold isExcluded.
  destruct (lookup d k) as [faces|e]; cbn; [|discriminate].
  destruct faces as [|cardEntry later]; cbn; [discriminate|].
  intros Hb. exists (cardEntry :: later). split; [reflexivity|]. cbn.
  destruct (types cardEntry) as [card_types|]; cbn in *; [|discriminate].
  destruct (contains "Plane" card_types || contains "Scheme" card_types);
    [reflexivity|].
  now destruct (printings cardEntry).
Qed.

Lemma lookup_absent :
  forall k, ~ In k (keys d) -> lookup d k = Raise KeyError.
Proof.
  induction d as [|[k' v] d' IH]; intros k Hk; cbn in *.
  - reflexivity.
  - destruct (String.eqb k k') eqn:E.
    + apply String.eqb_eq in E. subst. tauto.
    + apply IH. tauto.
Qed.

Lemma lookup_unique_key :
  forall k v, NoDup (keys d) -> In (k, v) d -> lookup d k = Ok v.
Proof.
  induction d as [|[k' v'] d' IH]; intros k v Hnd Hin; cbn in *.
  - contradiction.
  - inversion Hnd as [|? ? Hk' Hnd']; subst.
    destruct Hin as [E | Hin].
    + injection E as -> ->. now rewrite String.eqb_refl.
    + destruct (String.eqb k k') eqn:E; [|now apply IH].
      apply String.eqb_eq in E. subst k'. exfalso. apply Hk'.
      change k with (fst (k, v)). now apply in_map.
Qed.

End CorpusOrder.

Lemma disjoint_or_shared :
  forall a b,
    isdisjoint a b = false <-> exists code, In code a /\ In code b.
Proof.
  intros a b. split.
  - unfold isdisjoint. induction a as [|x a IH]; cbn; [discriminate|].
    destruct (contains x b) eqn:Hx; cbn.
    + intros _. exists x. split; [now left | now apply contains_In].
    + intros H. destruct (IH H) as (code & Ha & Hb). exists code; auto.
  - intros (code & Ha & Hb). eapply shared_code_not_disjoint; eassumption.
Qed.

Lemma index_of_found :
  forall l x, In x l -> exists i, index_of l x = Ok i /\ nth_error l i = Some x.
Proof.
  induction l as [|y l IH]; intros x Hin; cbn in *.
  - contradiction.
  - destruct (String.eqb y x) eqn:E.
    + apply String.eqb_eq in E. subst. exists 0. auto.
    + destruct Hin as [-> | Hin]; [now rewrite String.eqb_refl in E|].
      destruct (IH x Hin) as (i & -> & Hi). exists (S i). auto.
Qed.

Lemma index_of_missing :
  forall l x, ~ In x l -> index_of l x = Raise ValueError.
Proof.
  induction l as [|y l IH]; intros x Hin; cbn in *.
  - reflexivity.
  - destruct (String.eqb y x) eqn:E.
    + apply String.eqb_eq in E. tauto.
    + rewrite IH by tauto. reflexivity.
Qed.

(** X1. The corpus is the dictionary without the excluded cards, in the
    dictionary's order, and its two lists are parallel: they have the same
    length and the document at a position is the normalised raw text of the
    card named there. *)
Theorem corpus_in_dictionary_order :
  forall (d : CardsDict) names texts,
    constructCorpus d = Ok (names, texts) ->
    names = filter (kept d) (keys d) /\
    List.length texts = List.length names /\
    (forall i cardName,
        nth_error names i = Some cardName ->
        exists raw,
          getRawText d cardName = Ok raw /\
          nth_error texts i = Some (preprocessText raw cardName)).
Proof.
  intros d names texts Hrun.
  split; [exact (corpus_loop_names d _ _ _ _ _ Hrun)|].
  destruct (constructCorpus_rows d _ _ Hrun) as [Hrows _].
  split; [symmetry; exact (Forall2_same_length _ _ _ _ _ Hrows)|].
  intros i cardName Hi.
  destruct (Forall2_nth_error _ _ _ _ _ _ _ Hrows Hi)
    as (doc & Hdoc & _ & raw & Hraw & ->).
  now exists raw.
Qed.

Lemma corpus_in_dictionary_order_witness :
  sample_names = filter (kept sample) (keys sample) /\
  List.length sample_texts = List.length sample_names /\
  exists raw,
    getRawText sample "Fire // Ice" = Ok raw /\
    nth_error sample_texts 1 = Some (preprocessText raw "Fire // Ice").
Proof.
  destruct (corpus_in_dictionary_order sample sample_names sample_texts eq_refl)
    as (Hnames & Hlen & Hrow).
  split; [exact Hnames|]. split; [exact Hlen|].
  apply (Hrow 1 "Fire // Ice"). reflexivity.
Defined.

(** X2. On a dictionary (each name a key once) [constructCorpus] returns
    a corpus exactly when every card has a first face with a [types]
    field and, unless that names a Plane or a Scheme, a [printings] field;
    otherwise it raises. *)
Theorem constructCorpus_returns_iff_readable :
  forall d : CardsDict,
    NoDup (keys d) ->
    ((exists names texts, constructCorpus d = Ok (names, texts)) <->
     readable d = true).
Proof.
  intros d Hnd. split.
  - intros (names & texts & Hrun).
    unfold readable. apply forallb_forall. intros [k v] Hkv. cbn.
    assert (Hk : In k (keys d)).
    { change k with (fst (k, v)). now apply in_map. }
    destruct (corpus_loop_answers d _ _ _ _ Hrun k Hk) as (b & Hb).
    destruct (isExcluded_answer_readable d k b Hb) as (faces & Hl & Hr).
    rewrite (lookup_unique_key d k v Hnd Hkv) in Hl.
    injection Hl as <-. exact Hr.
  - apply constructCorpus_total.
Qed.

Lemma constructCorpus_returns_iff_readable_witness :
  (exists names texts, constructCorpus sample = Ok (names, texts)) /\
  constructCorpus (("Faceless", []) :: sample) = Raise IndexError.
Proof.
  assert (Hnd : NoDup (keys sample)).
  { repeat constructor; cbn; intros H;
      repeat (destruct H as [H | H]; [discriminate H|]); exact H. }
  split.
  - apply (constructCorpus_returns_iff_readable sample Hnd). reflexivity.
  - reflexivity.
Defined.

(** X3. What excludes a card: [isExcluded] returns [True] exactly when the
    first face has a [types] field and either that holds Plane or Scheme,
    or the face has a [printings] field that shares a code with
    [excludedSets]. The printings of a Plane or a Scheme are not read. *)
Theorem isExcluded_true_iff :
  forall (d : CardsDict) cardName cardEntry later,
    lookup d cardName = Ok (cardEntry :: later) ->
    (isExcluded d cardName = Ok true <->
     exists card_types,
       types cardEntry = Some card_types /\
       (In "Plane" card_types \/ In "Scheme" card_types \/
        exists card_printings code,
          printings cardEntry = Some card_printings /\
          In code card_printings /\ In code excludedSets)).
Proof.
  intros d cardName cardEntry later Hl. unfold isExcluded. rewrite Hl.
  cbn [bind subscript nth_error field].
  destruct (types cardEntry) as [card_types|]; cbn [bind field].
  - destruct (contains "Plane" card_types) eqn:Hp; cbn [orb].
    { split; [|reflexivity]. intros _. exists card_types.
      split; [reflexivity|]. left. now apply contains_In. }
    destruct (contains "Scheme" card_types) eqn:Hs; cbn [orb].
    { split; [|reflexivity]. intros _. exists card_types.
      split; [reflexivity|]. right; left. now apply contains_In. }
    assert (Hnp : ~ In "Plane" card_types).
    { intros H. apply contains_In in H. congruence. }
    assert (Hns : ~ In "Scheme" card_types).
    { intros H. apply contains_In in H. congruence. }
    destruct (printings cardEntry) as [card_printings|]; cbn [bind field].
    + destruct (isdisjoint card_printings excludedSets) eqn:Hd; cbn [negb].
      * split; [discriminate|].
        intros (ty & Hty & [H | [H | (pr & code & Hpr & Hc1 & Hc2)]]).
        -- injection Hty as <-. tauto.
        -- injection Hty as <-. tauto.
        -- injection Hpr as <-.
           rewrite (shared_code_not_disjoint code _ _ Hc1 Hc2) in Hd.
           discriminate.
      * split; [|reflexivity]. intros _. exists card_types.
        split; [reflexivity|]. right; right.
        apply disjoint_or_shared in Hd as (code & Hc1 & Hc2).
        exists card_printings, code. auto.
    + split; [discriminate|].
      intros (ty & Hty & [H | [H | (pr & code & Hpr & _)]]).
      * injection Hty as <-. tauto.
      * injection Hty as <-. tauto.
      * discriminate.
  - split; [discriminate|]. intros (ty & Hty & _). discriminate.
Qed.

Lemma isExcluded_true_iff_witness :
  isExcluded [("Academy at Tolaria West",
               [{| text := None; types := Some ["Plane"];
                   printings := None |}])]
             "Academy at Tolaria West" = Ok true.
Proof.
  apply (isExcluded_true_iff
           [("Academy at Tolaria West",
             [{| text := None; types := Some ["Plane"];
                 printings := None |}])]
           "Academy at Tolaria West"
           {| text := None; types := Some ["Plane"]; printings := None |}
           [] eq_refl).
  exists ["Plane"]. split; [reflexivity|]. left. now left.
Defined.

(** X4. A name that is no key of the dictionary: [getRawText],
    [isExcluded] and [getSimilarCards] raise [KeyError], the last for every
    count and before any ranking. *)
Theorem unknown_card_raises_KeyError :
  forall (L : Library) (g : Session L) cardName n,
    ~ In cardName (keys (cards_dict g)) ->
    getRawText (cards_dict g) cardName = Raise KeyError /\
    isExcluded (cards_dict g) cardName = Raise KeyError /\
    getSimilarCards L g cardName n = Raise KeyError.
Proof.
  intros L g cardName n Hk.
  unfold getSimilarCards, getRawText, isExcluded.
  rewrite (lookup_absent _ _ Hk). cbn. auto.
Qed.

Lemma unknown_card_raises_KeyError_witness :
  getRawText sample "Black Lotus" = Raise KeyError /\
  isExcluded sample "Black Lotus" = Raise KeyError /\
  getSimilarCards WordOverlap sample_session "Black Lotus" 5 = Raise KeyError.
Proof.
  apply (unknown_card_raises_KeyError WordOverlap sample_session
                                      "Black Lotus" 5).
  cbn. intros H. repeat (destruct H as [H | H]; [discriminate H|]). exact H.
Defined.

(** X5. [getCleanText] of a card of the corpus is the normalised raw text
    of that card; of any other name, also a card the filter excluded, it
    raises [ValueError]. *)
Theorem getCleanText_of_corpus_card :
  forall (L : Library) d (g : Session L) cardName,
    run_notebook L d = Ok g ->
    (In cardName (cardNames g) ->
     exists raw,
       getRawText d cardName = Ok raw /\
       getCleanText g cardName = Ok (preprocessText raw cardName)) /\
    (~ In cardName (cardNames g) ->
     getCleanText g cardName = Raise ValueError).
Proof.
  intros L d g cardName Hrun. unfold getCleanText. split.
  - intros Hin.
    destruct (index_of_found _ _ Hin) as (i & -> & Hi). cbn.
    destruct (own_document L d g Hrun i cardName Hi) as (raw & Hraw & Hdoc).
    destruct (session_corpus L d g Hrun) as (Hd & _). rewrite Hd in Hraw.
    exists raw. split; [assumption|]. unfold subscript. now rewrite Hdoc.
  - intros Hout. now rewrite (index_of_missing _ _ Hout).
Qed.

Lemma getCleanText_of_corpus_card_witness :
  getCleanText sample_session "Fire // Ice"
  = Ok " deals 2 damage divided as you choose among one or two targets tap target permanent draw a card" /\
  getCleanText sample_session "Chaos Confetti" = Raise ValueError.
Proof.
  destruct (getCleanText_of_corpus_card
              WordOverlap sample sample_session "Chaos Confetti" eq_refl)
    as (_ & Hout).
  split; [reflexivity|].
  apply Hout. cbn. intros H.
  repeat (destruct H as [H | H]; [discriminate H|]). exact H.
Defined.

(** ** Normalised texts *)

Section CleanTexts.

Local Open Scope string_scope.

Lemma lowered_char_clean :
  forall c,
    translator (Py.lower_char c) = None -> clean_char (Py.lower_char c) = true.
Proof.
  intros [[] [] [] [] [] [] [] []]; vm_compute; intros H;
    first [reflexivity | discriminate H].
Qed.

Lemma clean_char_untouched :
  forall c, clean_char c = true -> Py.lower_char c = c /\ translator c = None.
Proof.
  intros [[] [] [] [] [] [] [] []]; vm_compute; intros H;
    first [discriminate H | split; reflexivity].
Qed.

Lemma translate_lower_clean :
  forall s, clean (Py.translate translator (Py.lower s)) = true.
Proof.
  induction s as [|c s IH]; cbn [Py.lower Py.translate]; [reflexivity|].
  destruct (translator_cases (Py.lower_char c)) as [Hc | Hc]; rewrite Hc.
  - exact IH.
  - cbn [clean]. now rewrite (lowered_char_clean c Hc), IH.
Qed.

Lemma clean_untouched :
  forall t, clean t = true -> Py.translate translator (Py.lower t) = t.
Proof.
  induction t as [|c t IH]; cbn [clean Py.lower Py.translate];
    [reflexivity|].
  intros H. apply andb_true_iff in H as [Hc Ht].
  destruct (clean_char_untouched c Hc) as [-> ->]. now rewrite (IH Ht).
Qed.

Lemma replace_from_skip :
  forall old new x rest,
    Py.replace_from old new (String.length x) (x ++ rest)
    = Py.replace_from old new 0 rest.
Proof.
  intros old new. induction x as [|c x IH]; intros rest; cbn.
  - now destruct rest.
  - apply IH.
Qed.

Lemma prefix_append : forall s rest, prefix s (s ++ rest) = true.
Proof.
  induction s as [|c s IH]; intros rest; cbn.
  - now destruct rest.
  - destruct (ascii_dec c c) as [_ | Hc]; [apply IH | now elim Hc].
Qed.

Lemma replace_leading :
  forall old rest, Py.replace (old ++ rest) old "" = Py.replace rest old "".
Proof.
  intros [|c old] rest; [reflexivity|].
  pose proof (prefix_append (String c old) rest) as Hpre.
  cbn [Py.replace append] in *. cbn [Py.replace_from]. rewrite Hpre.
  cbn [String.length Nat.sub append]. rewrite Nat.sub_0_r.
  apply replace_from_skip.
Qed.

Lemma split_without_separator :
  forall sep s cur,
    Py.occurs sep s = false -> Py.split_from sep 0 cur s = [(cur ++ s)%string].
Proof.
  intros sep. induction s as [|c s IH]; intros cur Hocc; cbn in *.
  - f_equal. clear. induction cur as [|a cur IH]; cbn; congruence.
  - apply orb_false_iff in Hocc as [Hpre Hrest].
    cbn [prefix] in Hpre. rewrite Hpre, (IH _ Hrest). f_equal.
    clear. induction cur as [|a cur IH]; cbn; congruence.
Qed.

Lemma replace_from_shorter :
  forall old skip s,
    String.length (Py.replace_from old "" skip s) <= String.length s.
Proof.
  intros old skip s. revert skip.
  induction s as [|c s IH]; intros skip;
    cbn [Py.replace_from String.length]; [lia|].
  destruct skip as [|k].
  - destruct (prefix old (String c s)); cbn [append String.length].
    + specialize (IH (String.length old - 1)). lia.
    + specialize (IH 0). lia.
  - specialize (IH k). lia.
Qed.

Lemma remove_names_shorter :
  forall names t, String.length (remove_names names t) <= String.length t.
Proof.
  unfold remove_names.
  induction names as [|name names IH]; intros t; cbn; [lia|].
  etransitivity; [apply IH|].
  destruct name as [|c name]; cbn [Py.replace].
  - now rewrite replace_empty_delete.
  - apply replace_from_shorter.
Qed.

Lemma lower_same_length :
  forall s, String.length (Py.lower s) = String.length s.
Proof. induction s as [|c s IH]; cbn; congruence. Qed.

Lemma translate_shorter :
  forall s,
    String.length (Py.translate translator s) <= String.length s.
Proof.
  induction s as [|c s IH]; cbn [Py.translate]; [reflexivity|].
  destruct (translator_cases c) as [-> | ->]; cbn; lia.
Qed.

Lemma prefix_split :
  forall a s, prefix a s = true -> exists rest, s = (a ++ rest)%string.
Proof.
  induction a as [|c a IH]; intros s Hpre.
  - now exists s.
  - destruct s as [|c' s]; cbn in Hpre; [discriminate|].
    destruct (ascii_dec c c') as [<- | _]; [|discriminate].
    destruct (IH s Hpre) as [rest ->]. now exists rest.
Qed.

Lemma split_from_skip :
  forall sep x cur rest,
    Py.split_from sep (String.length x) cur (x ++ rest)
    = Py.split_from sep 0 cur rest.
Proof.
  intros sep. induction x as [|c x IH]; intros cur rest; cbn.
  - now destruct rest.
  - apply IH.
Qed.

Lemma split_from_pieces :
  forall sep s skip cur, Py.split_from sep skip cur s <> [].
Proof.
  intros sep. induction s as [|c s IH]; intros skip cur; cbn [Py.split_from].
  - discriminate.
  - destruct skip; [|apply IH].
    destruct (prefix sep (String c s)); [discriminate | apply IH].
Qed.

Lemma append_snoc :
  forall (u : string) c t,
    ((u ++ String c "") ++ t)%string = (u ++ String c t)%string.
Proof.
  induction u as [|b u IH]; intros c t; cbn; [reflexivity|].
  now rewrite IH.
Qed.

Lemma append_empty : forall t : string, (t ++ "")%string = t.
Proof. induction t as [|c t IH]; cbn; congruence. Qed.

(** What [Py.split] takes out is what [Py.join] puts back. *)
Lemma join_split_from :
  forall sep n s cur,
    sep <> "" ->
    String.length s <= n ->
    Py.join sep (Py.split_from sep 0 cur s) = (cur ++ s)%string.
Proof.
  intros sep n. induction n as [|n IH]; intros s cur Hsep Hn.
  - destruct s; [|cbn in Hn; lia]. cbn. now rewrite append_empty.
  - destruct s as [|c s]; [cbn; now rewrite append_empty|].
    cbn [Py.split_from].
    destruct (prefix sep (String c s)) eqn:Hpre.
    + destruct (prefix_split _ _ Hpre) as [rest Hrest].
      destruct sep as [|a sep]; [congruence|].
      cbn in Hrest. injection Hrest as -> ->.
      cbn [String.length Nat.sub]. rewrite Nat.sub_0_r, split_from_skip.
      assert (Hlen : String.length rest <= n).
      { cbn in Hn. clear - Hn. revert Hn.
        induction sep as [|b sep IHs]; cbn; intros; [lia|].
        apply IHs. lia. }
      pose proof (IH rest "" Hsep Hlen) as Htail. cbn [append] in Htail.
      pose proof (split_from_pieces (String a sep) rest 0 "") as Hne.
      destruct (Py.split_from (String a sep) 0 "" rest) as [|p l];
        [congruence|].
      change (Py.join (String a sep) (cur :: p :: l))
        with (cur ++ String a sep ++ Py.join (String a sep) (p :: l))%string.
      rewrite Htail. reflexivity.
    + rewrite IH; [apply append_snoc | assumption | cbn in Hn; lia].
Qed.

End CleanTexts.

(** X6. A text that [preprocessText] returns holds no character of
    [punct] and no upper-case letter, whatever the input and the name. *)
Theorem preprocessText_output_clean :
  forall input_text cardName,
    clean (preprocessText input_text cardName) = true.
Proof.
  intros input_text cardName. unfold preprocessText.
  apply translate_lower_clean.
Qed.

(** X7. For an ASCII text and a name that has nothing to remove from
    it, the text is returned unchanged by [preprocessText] exactly when it
    holds no character of [punct] and no upper-case letter. *)
Theorem preprocessText_fixed_points :
  forall t cardName,
    is_ascii t = true ->
    name_absent cardName t = true ->
    (preprocessText t cardName = t <-> clean t = true).
Proof.
  intros t cardName _ Habs. split.
  - intros Hfix. rewrite <- Hfix.
    unfold preprocessText. apply translate_lower_clean.
  - intros Hclean. rewrite (preprocess_absent _ _ Habs).
    now apply clean_untouched.
Qed.

Lemma preprocessText_fixed_points_witness :
  preprocessText "{t} add {g} +1/+1" "Llanowar Elves" = "{t} add {g} +1/+1" /\
  preprocessText "Add {G}." "Llanowar Elves" <> "Add {G}.".
Proof.
  split.
  - apply (preprocessText_fixed_points "{t} add {g} +1/+1" "Llanowar Elves");
      reflexivity.
  - intros Hfix.
    apply (preprocessText_fixed_points "Add {G}." "Llanowar Elves") in Hfix;
      [discriminate Hfix | reflexivity | reflexivity].
Defined.

(** X8. A text that starts with the card's name (a name without the
    separator of split cards) is normalised as the text after the name. *)
Theorem leading_name_is_removed :
  forall cardName rest,
    Py.occurs name_separator cardName = false ->
    preprocessText (cardName ++ rest) cardName = preprocessText rest cardName.
Proof.
  intros cardName rest Hsep. unfold preprocessText, Py.split.
  rewrite (split_without_separator _ _ _ Hsep).
  cbn [append remove_names fold_left].
  now rewrite replace_leading.
Qed.

Lemma leading_name_is_removed_witness :
  preprocessText "Electrolyze deals 2 damage. Draw a card." "Electrolyze"
  = preprocessText " deals 2 damage. Draw a card." "Electrolyze".
Proof.
  apply (leading_name_is_removed "Electrolyze" " deals 2 damage. Draw a card.").
  reflexivity.
Defined.

(** X9. Splitting loses nothing: the pieces that [Py.split] returns,
    joined with the separator, are the string that was split; so the
    sub-names of a card joined with the separator are its name. *)
Theorem split_join_round_trip :
  forall s sep, sep <> "" -> Py.join sep (Py.split s sep) = s.
Proof.
  intros s sep Hsep. unfold Py.split.
  now rewrite (join_split_from sep (String.length s) s "" Hsep (le_n _)).
Qed.

Lemma split_join_round_trip_witness :
  Py.split "Fire // Ice" name_separator = ["Fire"; "Ice"] /\
  Py.join name_separator (Py.split "Fire // Ice" name_separator)
  = "Fire // Ice".
Proof.
  split; [reflexivity|].
  apply (split_join_round_trip "Fire // Ice" name_separator). discriminate.
Defined.

(** X10. [preprocessText] never returns a text longer than an ASCII
    input: names and punctuation are only taken out and lower-casing an
    ASCII text keeps its length. *)
Theorem preprocessText_never_longer :
  forall input_text cardName,
    is_ascii input_text = true ->
    String.length (preprocessText input_text cardName)
    <= String.length input_text.
Proof.
  intros input_text cardName _. unfold preprocessText.
  etransitivity; [apply translate_shorter|].
  rewrite lower_same_length. apply remove_names_shorter.
Qed.

Lemma preprocessText_never_longer_witness :
  String.length
    (preprocessText "Electrolyze deals 2 damage. Draw a card." "Electrolyze")
  <= 40.
Proof.
  apply (preprocessText_never_longer
           "Electrolyze deals 2 damage. Draw a card." "Electrolyze").
  reflexivity.
Defined.

(** ** The ranking as a whole *)

Lemma StronglySorted_across :
  forall (A : Type) (R : A -> A -> Prop) l1 l2 a b,
    StronglySorted R (l1 ++ l2) -> In a l1 -> In b l2 -> R a b.
Proof.
  intros A R l1 l2 a b. induction l1 as [|x l1 IH]; cbn; intros Hs Ha Hb.
  - contradiction.
  - apply StronglySorted_inv in Hs as [Hs Hx].
    destruct Ha as [-> | Ha]; [|now apply IH].
    rewrite Forall_forall in Hx. apply Hx, in_or_app. now right.
Qed.

Lemma NoDup_firstn :
  forall (A : Type) k (l : list A), NoDup l -> NoDup (firstn k l).
Proof.
  intros A k l Hnd. rewrite <- (firstn_skipn k l) in Hnd.
  now apply NoDup_app_remove_r in Hnd.
Qed.

Lemma nth_of_all_positions :
  forall (A : Type) (l : list A) d,
    map (fun i => nth i l d) (seq 0 (List.length l)) = l.
Proof.
  intros A l d. induction l as [|a l IH]; cbn; [reflexivity|].
  f_equal. rewrite <- seq_shift, map_map. exact IH.
Qed.

Lemma Forall2_positions :
  forall (A : Type) (l : list A) d idxs xs,
    Forall2 (fun i x => nth_error l i = Some x) idxs xs ->
    xs = map (fun i => nth i l d) idxs.
Proof.
  intros A l d idxs xs H. induction H as [|i x idxs xs Hi H IH]; cbn.
  - reflexivity.
  - rewrite <- IH. f_equal. symmetry. now apply nth_error_nth.
Qed.

Lemma Forall2_positions_NoDup :
  forall (A : Type) (l : list A) idxs xs,
    Forall2 (fun i x => nth_error l i = Some x) idxs xs ->
    NoDup idxs -> NoDup l -> NoDup xs.
Proof.
  intros A l idxs xs H Hidx Hl.
  induction H as [|i x idxs xs Hi H IH]; [constructor|].
  inversion Hidx as [|? ? Hnotin Hidx']; subst.
  constructor; [|now apply IH].
  intros Hx. apply Hnotin.
  assert (Hsrc : exists j, In j idxs /\ nth_error l j = Some x).
  { clear - H Hx. induction H as [|j y idxs xs Hj H IH]; cbn in *.
    - contradiction.
    - destruct Hx as [-> | Hx]; [eauto|].
      destruct (IH Hx) as (k & Hk & Hkx). eauto. }
  destruct Hsrc as (j & Hj & Hjx).
  assert (Hij : i = j).
  { apply (proj1 (NoDup_nth_error l) Hl).
    - apply nth_error_Some. congruence.
    - congruence. }
  now subst.
Qed.

Section RankingAsAWhole.

Variable L : Library.
Variable d : CardsDict.
Variable g : Session L.
Hypothesis contract : ArgsortContract L.
Hypothesis started : run_notebook L d = Ok g.

Lemma ranking_NoDup :
  forall cardText,
    NoDup (rev (argsort L (cosine_similarities L g cardText))).
Proof.
  intros cardText. apply NoDup_rev.
  apply (Permutation_NoDup
           (Permutation_sym (argsort_permutation L contract _))).
  apply seq_NoDup.
Qed.

Lemma related_is_top_of_ranking :
  forall cardText n,
    exists k,
      related_docs_indices L g cardText n
      = firstn k (rev (argsort L (cosine_similarities L g cardText))).
Proof.
  intros cardText n. unfold related_docs_indices, slice_down_to.
  destruct (_ <? _)%Z; [eauto|]. now exists 0.
Qed.

Lemma session_names_NoDup :
  NoDup (keys d) -> NoDup (cardNames g).
Proof.
  intros Hnd. destruct (session_corpus L d g started) as (_ & Hrun & _).
  rewrite (corpus_loop_names d _ _ _ _ _ Hrun). cbn.
  now apply NoDup_filter.
Qed.

End RankingAsAWhole.

(** X11. Every card that [getSimilarTexts] returns scores at least as high
    as every card of the corpus that it leaves out. *)
Theorem returned_cards_outscore_the_rest :
  forall (L : Library) d (g : Session L) cardText n i j a b,
    ArgsortContract L ->
    run_notebook L d = Ok g ->
    In i (related_docs_indices L g cardText n) ->
    ~ In j (related_docs_indices L g cardText n) ->
    nth_error (cosine_similarities L g cardText) i = Some a ->
    nth_error (cosine_similarities L g cardText) j = Some b ->
    score_lt L a b = false.
Proof.
  intros L d g cardText n i j a b Hsort Hrun Hi Hj Ha Hb.
  destruct (related_is_top_of_ranking L g cardText n) as [k Hk].
  rewrite Hk in Hi, Hj.
  set (ranking := rev (argsort L (cosine_similarities L g cardText))) in *.
  assert (Hdesc : descending (score_lt L)
                             (cosine_similarities L g cardText) ranking).
  { apply descending_of_ascending, (argsort_ascending L Hsort). }
  assert (Hjin : In j ranking).
  { unfold ranking. apply -> in_rev.
    apply (Permutation_in _ (Permutation_sym
                               (argsort_permutation L Hsort _))).
    apply in_seq. split; [lia|]. cbn. apply nth_error_Some. congruence. }
  rewrite <- (firstn_skipn k ranking) in Hdesc, Hjin.
  apply in_app_or in Hjin as [Hjin | Hjin]; [contradiction|].
  exact (StronglySorted_across _ _ _ _ i j Hdesc Hi Hjin a b Ha Hb).
Qed.

Lemma returned_cards_outscore_the_rest_witness :
  related_docs_indices WordOverlap sample_session "target creature" 2 = [2; 0]
  /\ cosine_similarities WordOverlap sample_session "target creature"
     = [2; 1; 2; 0; 0]%Z
  /\ Z.ltb 2 1 = false.
Proof.
  split; [reflexivity|]. split; [reflexivity|].
  apply (returned_cards_outscore_the_rest
           WordOverlap sample sample_session "target creature" 2 0 1 2%Z 1%Z
           WordOverlap_contract eq_refl).
  - vm_compute. auto.
  - vm_compute. intros [H | [H | []]]; discriminate H.
  - reflexivity.
  - reflexivity.
Defined.

(** X12. On a dictionary (each name a key once) [getSimilarTexts] never
    lists a card twice and lists cards of the corpus only; when the count
    is at least the size of the corpus, the result is the whole corpus in
    some order. *)
Theorem ranking_lists_each_card_once :
  forall (L : Library) d (g : Session L) cardText n closest,
    ArgsortContract L ->
    run_notebook L d = Ok g ->
    NoDup (keys d) ->
    getSimilarTexts L g cardText n = Ok closest ->
    NoDup closest /\
    incl closest (cardNames g) /\
    ((Z.of_nat (List.length (cardNames g)) <= n)%Z ->
     Permutation closest (cardNames g)).
Proof.
  intros L d g cardText n closest Hsort Hrun Hnd Hres.
  destruct (names_of_indices L d g Hrun Hsort cardText
              (related_docs_indices L g cardText n))
    as (closest' & Hclosest & Hrel).
  { intros idx Hidx. eapply slice_In; exact Hidx. }
  unfold getSimilarTexts in Hres. rewrite Hclosest in Hres.
  injection Hres as <-.
  split; [|split].
  - apply (Forall2_positions_NoDup _ _ _ _ Hrel).
    + destruct (related_is_top_of_ranking L g cardText n) as [k ->].
      apply NoDup_firstn. now apply ranking_NoDup.
    + now apply (session_names_NoDup L d g Hrun).
  - intros name Hname.
    apply In_nth_error in Hname as [p Hp].
    destruct (Forall2_nth_error _ _ (fun x i => nth_error (cardNames g) i = Some x)
                closest' (related_docs_indices L g cardText n) p name)
      as (idx & _ & Hidx); [|exact Hp|].
    { clear - Hrel. induction Hrel; constructor; assumption. }
    eapply nth_error_In; exact Hidx.
  - intros Hn.
    rewrite (Forall2_positions _ _ EmptyString _ _ Hrel).
    apply (Permutation_trans
             (l' := map (fun i => nth i (cardNames g) EmptyString)
                        (seq 0 (List.length (cardNames g)))));
      [|rewrite nth_of_all_positions; apply Permutation_refl].
    apply Permutation_map.
    unfold related_docs_indices. rewrite slice_top by lia.
    assert (Hlen : List.length (argsort L (cosine_similarities L g cardText))
                   = List.length (cardNames g)).
    { rewrite (Permutation_length (argsort_permutation L Hsort _)).
      now rewrite length_seq, (scores_length L d g Hrun). }
    rewrite firstn_all2 by (rewrite length_rev; lia).
    eapply perm_trans; [apply Permutation_sym, Permutation_rev|].
    rewrite <- (scores_length L d g Hrun cardText).
    apply (argsort_permutation L Hsort).
Qed.

Lemma ranking_lists_each_card_once_witness :
  getSimilarTexts WordOverlap sample_session "target creature" 9
  = Ok ["Giant Growth"; "Brute Force"; "Fire // Ice"; "Llanowar Elves";
        "Grizzly Bears"] /\
  Permutation ["Giant Growth"; "Brute Force"; "Fire // Ice"; "Llanowar Elves";
               "Grizzly Bears"] sample_names.
Proof.
  split; [reflexivity|].
  assert (Hnd : NoDup (keys sample)).
  { repeat constructor; cbn; intros H;
      repeat (destruct H as [H | H]; [discriminate H|]); exact H. }
  destruct (ranking_lists_each_card_once
              WordOverlap sample sample_session "target creature" 9
              ["Giant Growth"; "Brute Force"; "Fire // Ice"; "Llanowar Elves";
               "Grizzly Bears"]
              WordOverlap_contract eq_refl Hnd eq_refl)
    as (_ & _ & Hall).
  apply Hall. cbn. lia.
Defined.

(** X13. [getSimilarCards] answers for every card of the dictionary, also
    one the filter kept out of the corpus: for a count that is not
    negative it returns as many names as the count asks for, or the whole
    corpus when that is smaller. *)
Theorem dictionary_card_query_is_answered :
  forall (L : Library) d (g : Session L) cardName n,
    ArgsortContract L ->
    run_notebook L d = Ok g ->
    In cardName (keys d) ->
    (0 <= n)%Z ->
    exists closest,
      getSimilarCards L g cardName n = Ok closest /\
      List.length closest
      = Nat.min (Z.to_nat n) (List.length (cardNames g)).
Proof.
  intros L d g cardName n Hsort Hrun Hkey Hn.
  destruct (lookup_present d cardName Hkey) as (faces & Hl & _).
  destruct (session_corpus L d g Hrun) as (Hd & _).
  unfold getSimilarCards, getRawText. rewrite Hd, Hl. cbn [bind].
  destruct (full_ranking L d g Hrun Hsort
              (preprocessText (Py.join " " (face_texts faces)) cardName))
    as (full & _ & Hlen & Htop & _).
  rewrite (Htop n Hn). eexists; split; [reflexivity|].
  now rewrite length_firstn, Hlen.
Qed.

Lemma dictionary_card_query_is_answered_witness :
  isExcluded sample "Chaos Confetti" = Ok true /\
  exists closest,
    getSimilarCards WordOverlap sample_session "Chaos Confetti" 9 = Ok closest /\
    List.length closest = 5.
Proof.
  split; [reflexivity|].
  apply (dictionary_card_query_is_answered
           WordOverlap sample sample_session "Chaos Confetti" 9
           WordOverlap_contract eq_refl).
  - cbn. tauto.
  - lia.
Defined.

(** X14. On a dictionary (each name a key once) no name is twice in the
    corpus. *)
Theorem corpus_names_are_distinct :
  forall (d : CardsDict) names texts,
    NoDup (keys d) ->
    constructCorpus d = Ok (names, texts) ->
    NoDup names.
Proof.
  intros d names texts Hnd Hrun.
  rewrite (corpus_loop_names d _ _ _ _ _ Hrun). cbn.
  now apply NoDup_filter.
Qed.

Lemma corpus_names_are_distinct_witness : NoDup sample_names.
Proof.
  apply (corpus_names_are_distinct sample sample_names sample_texts);
    [|reflexivity].
  repeat constructor; cbn; intros H;
    repeat (destruct H as [H | H]; [discriminate H|]); exact H.
Defined.
